(** * A shallow embedding of the Stagehand / MongoDB scraper

    The TypeScript sources ([mongodb.ts], [schemas.ts], [scraper.ts],
    [query.ts], [index.ts]) are embedded as functions over JavaScript
    values in a state-and-exception monad.  The external collaborators (the
    document-store server, the browser page, the extraction service, the
    clock) are an environment [Env] and a [World] the code acts on. *)

From Stdlib Require Import PrimFloat Uint63 ZArith Ascii.
From stdpp Require Import gmap strings list fin_maps pretty.

Set Default Proof Using "Type".
#[local] Set Warnings "-register-all,-inexact-float".
Local Open Scope string_scope.
Local Open Scope list_scope.

(** ** JavaScript strings

    [String.prototype.includes] and [String.prototype.replace] with a string
    pattern.  [replace] rewrites the first match only; the replacement text
    used by the scraper holds no [$], so it is inserted literally. *)
Module JsString.

Fixpoint drop (n : nat) (s : string) : string :=
  match n, s with
  | O, _ => s
  | S _, EmptyString => EmptyString
  | S n', String _ s' => drop n' s'
  end.

Fixpoint includes (pat s : string) : bool :=
  if String.prefix pat s then true
  else match s with
       | EmptyString => false
       | String _ s' => includes pat s'
       end.

Fixpoint replace (pat rep s : string) : string :=
  if String.prefix pat s then rep +:+ drop (String.length pat) s
  else match s with
       | EmptyString => EmptyString
       | String c s' => String c (replace pat rep s')
       end.

(** [pat] occurs in [s] at offset [i]. *)
Definition occurs_at (pat s : string) (i : nat) : bool :=
  (i <=? String.length s)%nat && String.prefix pat (drop i s).

End JsString.

(** [scraper.ts], [scrapeProductReviews], lines 108-110. *)
Definition reviewsUrl (productUrl : string) : string :=
  if JsString.includes "/dp/" productUrl
  then JsString.replace "/dp/" "/product-reviews/" productUrl
  else productUrl.

(** ** JavaScript values

    A number is an IEEE double.  [new Date()] reads the clock; [new Date(s)]
    is kept as the text it was built from; a date built from anything but a
    string or a date is [DateOther]. *)
Inductive Date :=
  | DateAt (ms : N)
  | DateParse (text : string)
  | DateOther.

Inductive value :=
  | VUndefined
  | VNull
  | VBool (b : bool)
  | VNum (x : float)
  | VStr (s : string)
  | VDate (d : Date)
  | VArr (l : list value)
  | VObj (o : gmap string value).

(** [v.k]: an absent property reads as [undefined]. *)
Definition get (v : value) (k : string) : value :=
  match v with
  | VObj o => default VUndefined (o !! k)
  | _ => VUndefined
  end.

(** The own properties an object spread [{...v}] copies. *)
Definition fields (v : value) : gmap string value :=
  match v with
  | VObj o => o
  | _ => ∅
  end.

(** ToBoolean, as used by [cond ? a : b]. *)
Definition truthy (v : value) : bool :=
  match v with
  | VUndefined | VNull => false
  | VBool b => b
  | VNum x => negb (PrimFloat.eqb x 0) && PrimFloat.eqb x x
  | VStr s => negb (String.eqb s "")
  | VDate _ | VArr _ | VObj _ => true
  end.

(** [new Date(v)] *)
Definition new_Date_from (v : value) : value :=
  match v with
  | VStr s => VDate (DateParse s)
  | VDate d => VDate d
  | _ => VDate DateOther
  end.

(** A field the schemas type as [z.string()], read where a string is
    expected (a URL to visit, a name inside a template literal). *)
Definition string_of (v : value) : string :=
  match v with
  | VStr s => s
  | _ => ""
  end.

(** [arr.length] *)
Definition array_length (v : value) : nat :=
  match v with
  | VArr l => length l
  | _ => 0
  end.

(** ** [schemas.ts]: the zod shapes

    [conforms] is zod's [parse] as a check: an object shape constrains the
    keys it names and lets other keys pass. *)
Inductive schema :=
  | ZString
  | ZNumber
  | ZBoolean
  | ZDate
  | ZOptional (s : schema)
  | ZArray (s : schema)
  | ZRecord (s : schema)
  | ZObject (shape : list (string * schema)).

Fixpoint conforms (s : schema) (v : value) : bool :=
  match s with
  | ZString => match v with VStr _ => true | _ => false end
  | ZNumber => match v with VNum x => PrimFloat.eqb x x | _ => false end
  | ZBoolean => match v with VBool _ => true | _ => false end
  | ZDate => match v with VDate _ => true | _ => false end
  | ZOptional s' => match v with VUndefined => true | _ => conforms s' v end
  | ZArray s' => match v with VArr l => forallb (conforms s') l | _ => false end
  | ZRecord s' =>
      match v with
      | VObj o => forallb (λ kv, conforms s' kv.2) (map_to_list o)
      | _ => false
      end
  | ZObject shape =>
      match v with
      | VObj _ => forallb (λ '(k, sk), conforms sk (get v k)) shape
      | _ => false
      end
  end.

Definition ProductShape : list (string * schema) :=
  [ ("id", ZOptional ZString);
    ("name", ZString);
    ("price", ZString);
    ("currency", ZOptional ZString);
    ("description", ZOptional ZString);
    ("category", ZOptional ZString);
    ("imageUrl", ZOptional ZString);
    ("url", ZString);
    ("brand", ZOptional ZString);
    ("rating", ZOptional ZNumber);
    ("reviewCount", ZOptional ZNumber);
    ("inStock", ZOptional ZBoolean);
    ("specs", ZOptional (ZRecord ZString));
    ("dateScraped", ZDate) ].

Definition ProductSchema : schema := ZObject ProductShape.

Definition ProductListSchema : schema :=
  ZObject
    [ ("products", ZArray ProductSchema);
      ("category", ZOptional ZString);
      ("page", ZOptional ZNumber);
      ("totalProducts", ZOptional ZNumber);
      ("websiteName", ZString);
      ("dateScraped", ZDate) ].

Definition ReviewSchema : schema :=
  ZObject
    [ ("id", ZOptional ZString);
      ("productId", ZString);
      ("author", ZOptional ZString);
      ("rating", ZNumber);
      ("title", ZOptional ZString);
      ("content", ZString);
      ("date", ZOptional ZDate);
      ("verified", ZOptional ZBoolean);
      ("helpful", ZOptional ZNumber);
      ("dateScraped", ZDate) ].

(** [ProductSchema.omit({ dateScraped: true })] *)
Definition omit (key : string) (s : schema) : schema :=
  match s with
  | ZObject shape => ZObject (filter (λ kv, kv.1 ≠ key) shape)
  | _ => s
  end.

Module COLLECTIONS.
Definition PRODUCTS : string := "products".
Definition PRODUCT_LISTS : string := "product_lists".
Definition REVIEWS : string := "reviews".
End COLLECTIONS.

(** ** Errors and results *)
Inductive error :=
  | ConnectionError (uri : string)
  | InvalidArgument (msg : string)
  | WriteError (collectionName : string) (doc : value)
  | NavigationError (url : string)
  | ExtractionError (instruction : string)
  | TypeError (msg : string)
  | AggregationError (code : N) (msg : string).

Inductive result (A : Type) :=
  | Ok (a : A)
  | Throw (e : error).
Arguments Ok {A} a.
Arguments Throw {A} e.

(** ** The world the program acts on *)
Record MongoClient := { client_id : nat; client_uri : string }.
Record Db := { db_client : MongoClient; db_name : string }.
Record Collection := { coll_db : Db; coll_name : string }.

Inductive WriteOp :=
  | InsertOne (collectionName : string) (doc : value)
  | InsertMany (collectionName : string) (docs : list value).

Inductive PageEvent :=
  | Goto (url : string)
  | WaitForTimeout (ms : N)
  | ScrollTo (num den : N)
  | Extract (instruction : string).

Inductive LogLine :=
  | Log (msg : string)
  | LogError (msg : string) (e : error).

Record World := {
  client : option MongoClient;             (* [let client] of mongodb.ts *)
  db : option Db;                          (* [let db] of mongodb.ts *)
  clients_made : nat;                      (* MongoClient objects built *)
  connects : nat;                          (* sessions the server accepted *)
  collections : gmap string (list value);  (* the stored documents *)
  writes : list WriteOp;                   (* insert calls the server got *)
  location : string;                       (* the page's current URL *)
  trace : list PageEvent;                  (* what was asked of the page *)
  clock : N;                               (* milliseconds *)
  console : list LogLine;
}.

(** What is outside the program: configuration, network, server, site and
    extraction service. *)
Record Env := {
  env_MONGO_URI : option string;
  env_DB_NAME : option string;
  reachable : string → bool;
  rejects : string → value → bool;
  loads : string → bool;
  extraction : string → string → option value;
}.

Definition with_client (c : option MongoClient) (w : World) : World :=
  {| client := c; db := db w; clients_made := clients_made w;
     connects := connects w; collections := collections w;
     writes := writes w; location := location w; trace := trace w;
     clock := clock w; console := console w |}.

Definition with_db (d : option Db) (w : World) : World :=
  {| client := client w; db := d; clients_made := clients_made w;
     connects := connects w; collections := collections w;
     writes := writes w; location := location w; trace := trace w;
     clock := clock w; console := console w |}.

Definition with_clients_made (n : nat) (w : World) : World :=
  {| client := client w; db := db w; clients_made := n;
     connects := connects w; collections := collections w;
     writes := writes w; location := location w; trace := trace w;
     clock := clock w; console := console w |}.

Definition with_connects (n : nat) (w : World) : World :=
  {| client := client w; db := db w; clients_made := clients_made w;
     connects := n; collections := collections w;
     writes := writes w; location := location w; trace := trace w;
     clock := clock w; console := console w |}.

Definition with_collections (m : gmap string (list value)) (w : World) : World :=
  {| client := client w; db := db w; clients_made := clients_made w;
     connects := connects w; collections := m;
     writes := writes w; location := location w; trace := trace w;
     clock := clock w; console := console w |}.

Definition with_writes (l : list WriteOp) (w : World) : World :=
  {| client := client w; db := db w; clients_made := clients_made w;
     connects := connects w; collections := collections w;
     writes := l; location := location w; trace := trace w;
     clock := clock w; console := console w |}.

Definition with_location (url : string) (w : World) : World :=
  {| client := client w; db := db w; clients_made := clients_made w;
     connects := connects w; collections := collections w;
     writes := writes w; location := url; trace := trace w;
     clock := clock w; console := console w |}.

Definition with_trace (t : list PageEvent) (w : World) : World :=
  {| client := client w; db := db w; clients_made := clients_made w;
     connects := connects w; collections := collections w;
     writes := writes w; location := location w; trace := t;
     clock := clock w; console := console w |}.

Definition with_clock (t : N) (w : World) : World :=
  {| client := client w; db := db w; clients_made := clients_made w;
     connects := connects w; collections := collections w;
     writes := writes w; location := location w; trace := trace w;
     clock := t; console := console w |}.

Definition with_console (l : list LogLine) (w : World) : World :=
  {| client := client w; db := db w; clients_made := clients_made w;
     connects := connects w; collections := collections w;
     writes := writes w; location := location w; trace := trace w;
     clock := clock w; console := l |}.

(** The documents of a collection, in insertion order. *)
Definition documents (w : World) (collectionName : string) : list value :=
  default [] (collections w !! collectionName).

(** ** Asynchronous code: state and exceptions *)
Definition M (A : Type) : Type := World → result A * World.

Global Instance M_ret : MRet M := λ A a w, (Ok a, w).
Global Instance M_bind : MBind M := λ A B f m w,
  match m w with
  | (Ok a, w') => f a w'
  | (Throw e, w') => (Throw e, w')
  end.

Definition throw {A} (e : error) : M A := λ w, (Throw e, w).

Definition try_catch {A} (body : M A) (handler : error → M A) : M A := λ w,
  match body w with
  | (Ok a, w') => (Ok a, w')
  | (Throw e, w') => handler e w'
  end.

Definition try_finally {A} (body : M A) (cleanup : M unit) : M A := λ w,
  let '(r, w') := body w in
  match cleanup w' with
  | (Ok _, w'') => (r, w'')
  | (Throw e, w'') => (Throw e, w'')
  end.

Definition read {A} (f : World → A) : M A := λ w, (Ok (f w), w).
Definition modify (f : World → World) : M unit := λ w, (Ok (), f w).

Definition console_log (msg : string) : M unit :=
  modify (λ w, with_console (console w ++ [Log msg]) w).
Definition console_error (msg : string) (e : error) : M unit :=
  modify (λ w, with_console (console w ++ [LogError msg e]) w).

(** [new Date()] *)
Definition new_Date : M value := read (λ w, VDate (DateAt (clock w))).

(** [arr.map(f)] *)
Fixpoint map_each (f : value → M value) (l : list value) : M (list value) :=
  match l with
  | [] => mret []
  | x :: l' => y ← f x; ys ← map_each f l'; mret (y :: ys)
  end.

Definition array_map (arr : value) (f : value → M value) : M value :=
  match arr with
  | VArr l => ys ← map_each f l; mret (VArr ys)
  | _ => throw (TypeError "map is not a function")
  end.

(** [for (const [index, x] of arr.entries()) body] *)
Fixpoint for_entries (body : nat → value → M unit) (index : nat)
    (l : list value) : M unit :=
  match l with
  | [] => mret ()
  | x :: l' => body index x;; for_entries body (S index) l'
  end.

(** ** The aggregation language, as far as [query.ts] uses it

    A pipeline is parsed before any document is read.  In operand position
    a string that starts with [$] is a field path ([$$]: a variable), and
    only [{ $literal: ... }] keeps such a string as text. *)
Global Instance result_ret : MRet result := λ A a, Ok a.
Global Instance result_bind : MBind result := λ A B f r,
  match r with
  | Ok a => f a
  | Throw e => Throw e
  end.

Inductive operand :=
  | OStr (s : string)
  | ONull
  | OLiteral (v : value)
  | OReplaceAll (input find replacement : operand)
  | OToDouble (input : operand).

Inductive accumulator :=
  | Avg (o : operand)
  | Min (o : operand)
  | Max (o : operand).

Inductive stage :=
  | AddFields (newFields : list (string * operand))
  | GroupNull (accumulators : list (string * accumulator)).

Inductive expr :=
  | EField (name : string)
  | EVar (name : string)
  | EConst (v : value)
  | EReplaceAll (input find replacement : expr)
  | EToDouble (input : expr).

Fixpoint parseOperand (o : operand) : result expr :=
  match o with
  | OStr s =>
      match s with
      | String "$"%char EmptyString =>
          Throw (AggregationError 16872 "'$' by itself is not a valid FieldPath")
      | String "$"%char (String "$"%char name) => Ok (EVar name)
      | String "$"%char name => Ok (EField name)
      | _ => Ok (EConst (VStr s))
      end
  | ONull => Ok (EConst VNull)
  | OLiteral v => Ok (EConst v)
  | OReplaceAll input find replacement =>
      i ← parseOperand input;
      f ← parseOperand find;
      r ← parseOperand replacement;
      Ok (EReplaceAll i f r)
  | OToDouble input =>
      i ← parseOperand input;
      Ok (EToDouble i)
  end.

Module Aggregation.

(** [$replaceAll] on strings: matches are taken left to right and do not
    overlap; an empty [find] matches before every character and at the
    end. *)
Fixpoint replace_from (find rep : string) (skip : nat) (s : string) : string :=
  match s with
  | EmptyString => EmptyString
  | String c s' =>
      match skip with
      | S k => replace_from find rep k s'
      | O =>
          if String.prefix find s
          then rep +:+ replace_from find rep (String.length find - 1) s'
          else String c (replace_from find rep 0 s')
      end
  end.

Fixpoint interleave (rep s : string) : string :=
  match s with
  | EmptyString => EmptyString
  | String c s' => String c (rep +:+ interleave rep s')
  end.

Definition replaceAll (find rep s : string) : string :=
  if String.eqb find "" then rep +:+ interleave rep s
  else replace_from find rep 0 s.

(** [$toDouble] of a string, for plain decimal numerals of at most 15
    digits: both the digits and the power of ten are then doubles, and
    their quotient is the double nearest to the numeral.  Other texts are
    treated as not convertible. *)
Definition digit_of (c : ascii) : option Z :=
  let n := Z.of_N (Ascii.N_of_ascii c) in
  if ((48 <=? n) && (n <=? 57))%Z then Some (n - 48)%Z else None.

Fixpoint read_digits (s : string) (acc : Z) (count : nat) : Z * nat * string :=
  match s with
  | EmptyString => (acc, count, EmptyString)
  | String c s' =>
      match digit_of c with
      | Some d => read_digits s' (10 * acc + d)%Z (S count)
      | None => (acc, count, s)
      end
  end.

Definition parse_decimal (s : string) : option (bool * Z * nat) :=
  let '(negative, body) :=
    match s with
    | String "-"%char r => (true, r)
    | String "+"%char r => (false, r)
    | _ => (false, s)
    end in
  let '(whole, nw, rest) := read_digits body 0 0 in
  match rest with
  | EmptyString => if (nw =? 0)%nat then None else Some (negative, whole, 0)
  | String "."%char fraction =>
      let '(m, nf, rest') := read_digits fraction whole 0 in
      match rest' with
      | EmptyString =>
          if (nw + nf =? 0)%nat then None else Some (negative, m, nf)
      | _ => None
      end
  | _ => None
  end.

Definition float_of_Z (z : Z) : float := PrimFloat.of_uint63 (Uint63.of_Z z).

Definition double_of_string (s : string) : option float :=
  match parse_decimal s with
  | Some (negative, m, k) =>
      if ((m <? 10 ^ 15)%Z && (k <=? 15)%nat)%bool then
        let x := (float_of_Z m / float_of_Z (10 ^ Z.of_nat k))%float in
        Some (if negative then (- x)%float else x)
      else None
  | None => None
  end.

Definition nullish (v : value) : bool :=
  match v with
  | VUndefined | VNull => true
  | _ => false
  end.

Definition string_or_nullish (v : value) : bool :=
  match v with
  | VStr _ => true
  | _ => nullish v
  end.

Fixpoint eval (e : expr) (doc : value) : result value :=
  match e with
  | EField name => Ok (get doc name)
  | EVar name =>
      if String.eqb name "ROOT" || String.eqb name "CURRENT" then Ok doc
      else Throw (AggregationError 17276 ("Use of undefined variable: " +:+ name))
  | EConst v => Ok v
  | EReplaceAll input find replacement =>
      i ← eval input doc;
      f ← eval find doc;
      r ← eval replacement doc;
      if negb (string_or_nullish i) then
        Throw (AggregationError 51746 "$replaceAll requires that 'input' be a string")
      else if negb (string_or_nullish f) then
        Throw (AggregationError 51745 "$replaceAll requires that 'find' be a string")
      else if negb (string_or_nullish r) then
        Throw (AggregationError 51744 "$replaceAll requires that 'replacement' be a string")
      else
        match i, f, r with
        | VStr si, VStr sf, VStr sr => Ok (VStr (replaceAll sf sr si))
        | _, _, _ => Ok VNull
        end
  | EToDouble input =>
      v ← eval input doc;
      match v with
      | VNum _ => Ok v
      | VBool b => Ok (VNum (if b then 1 else 0))
      | VStr s =>
          match double_of_string s with
          | Some x => Ok (VNum x)
          | None =>
              Throw (AggregationError 241
                       ("Failed to parse number '" +:+ s +:+ "' in $convert"))
          end
      | VUndefined | VNull => Ok VNull
      | _ => Throw (AggregationError 241 "Unsupported conversion to double")
      end
  end.

Definition numbers (vs : list value) : list float :=
  omap (λ v, match v with VNum x => Some x | _ => None end) vs.

Definition sum (xs : list float) : float := foldl PrimFloat.add 0%float xs.

Definition least (xs : list float) : option float :=
  match xs with
  | [] => None
  | x :: xs' => Some (foldl (λ m y, if PrimFloat.ltb y m then y else m) x xs')
  end.

Definition greatest (xs : list float) : option float :=
  match xs with
  | [] => None
  | x :: xs' => Some (foldl (λ m y, if PrimFloat.ltb m y then y else m) x xs')
  end.

Definition number_or_null (x : option float) : value :=
  match x with
  | Some x => VNum x
  | None => VNull
  end.

(** The accumulators see numbers; what is not a number is skipped, as
    null and missing values are. *)
Definition accumulate (a : accumulator) (parsed : expr) (docs : list value)
    : result value :=
  vs ← mapM (eval parsed) docs;
  let xs := numbers vs in
  match a with
  | Avg _ =>
      Ok (match xs with
          | [] => VNull
          | _ => VNum (sum xs / float_of_Z (Z.of_nat (length xs)))
          end)
  | Min _ => Ok (number_or_null (least xs))
  | Max _ => Ok (number_or_null (greatest xs))
  end.

Definition accumulator_operand (a : accumulator) : operand :=
  match a with
  | Avg o | Min o | Max o => o
  end.

Inductive parsed_stage :=
  | PAddFields (newFields : list (string * expr))
  | PGroupNull (accumulators : list (string * (accumulator * expr))).

Definition parseStage (s : stage) : result parsed_stage :=
  match s with
  | AddFields newFields =>
      fs ← mapM (λ '(name, o), e ← parseOperand o; Ok (name, e)) newFields;
      Ok (PAddFields fs)
  | GroupNull accumulators =>
      accs ← mapM (λ '(name, a),
                     e ← parseOperand (accumulator_operand a);
                     Ok (name, (a, e))) accumulators;
      Ok (PGroupNull accs)
  end.

Definition addFields (newFields : list (string * expr)) (doc : value)
    : result value :=
  vs ← mapM (λ '(name, e), v ← eval e doc; Ok (name, v)) newFields;
  Ok (VObj (foldl (λ o '(name, v),
                     match v with
                     | VUndefined => o
                     | _ => <[name := v]> o
                     end) (fields doc) vs)).

Definition runStage (s : parsed_stage) (docs : list value)
    : result (list value) :=
  match s with
  | PAddFields newFields => mapM (addFields newFields) docs
  | PGroupNull accumulators =>
      match docs with
      | [] => Ok []
      | _ =>
          vs ← mapM (λ '(name, (a, e)),
                       v ← accumulate a e docs; Ok (name, v)) accumulators;
          Ok [VObj (foldl (λ o '(name, v), <[name := v]> o)
                      (<["_id" := VNull]> ∅) vs)]
      end
  end.

Definition aggregate (pipeline : list stage) (docs : list value)
    : result (list value) :=
  stages ← mapM parseStage pipeline;
  foldl (λ acc s, ds ← acc; runStage s ds) (Ok docs) stages.

End Aggregation.

Section Program.

Variable env : Env.

(** *** [mongodb.ts] *)

(** [process.env.X || fallback] *)
Definition or_default (configured : option string) (fallback : string) : string :=
  match configured with
  | Some s => if String.eqb s "" then fallback else s
  | None => fallback
  end.

Definition MONGO_URI : string :=
  or_default (env_MONGO_URI env) "mongodb://localhost:27017".
Definition DB_NAME : string :=
  or_default (env_DB_NAME env) "scraper_db".

(** [new MongoClient(uri)] *)
Definition new_MongoClient (uri : string) : M MongoClient := λ w,
  (Ok {| client_id := clients_made w; client_uri := uri |},
   with_clients_made (S (clients_made w)) w).

(** [client.connect()] *)
Definition client_connect (c : MongoClient) : M unit := λ w,
  if reachable env (client_uri c)
  then (Ok (), with_connects (S (connects w)) w)
  else (Throw (ConnectionError (client_uri c)), w).

(** [client.close()]: ends the session; the model keeps no count of the
    sessions that are open. *)
Definition client_close (c : MongoClient) : M unit := mret ().

Definition connectToMongo : M Db :=
  current ← read db;
  match current with
  | Some d => mret d
  | None =>
      try_catch
        (c ← new_MongoClient MONGO_URI;
         modify (with_client (Some c));;
         client_connect c;;
         console_log "Connected to MongoDB";;
         let d := {| db_client := c; db_name := DB_NAME |} in
         modify (with_db (Some d));;
         mret d)
        (λ error,
           console_error "Error connecting to MongoDB:" error;;
           throw error)
  end.

Definition closeMongo : M unit :=
  current ← read client;
  match current with
  | Some c =>
      client_close c;;
      console_log "MongoDB connection closed";;
      modify (with_client None);;
      modify (with_db None)
  | None => mret ()
  end.

(** The server takes the documents of an ordered batch one by one and stops
    at the first one it refuses; what came before it stays stored. *)
Fixpoint insert_ordered (collectionName : string) (docs stored : list value)
    : result unit * list value :=
  match docs with
  | [] => (Ok (), stored)
  | doc :: docs' =>
      if rejects env collectionName doc
      then (Throw (WriteError collectionName doc), stored)
      else insert_ordered collectionName docs' (stored ++ [doc])
  end.

Definition server_insert (op : WriteOp) (collectionName : string)
    (docs : list value) : M unit := λ w,
  let '(r, stored) := insert_ordered collectionName docs (documents w collectionName) in
  (r, with_collections (<[collectionName := stored]> (collections w))
        (with_writes (writes w ++ [op]) w)).

(** [collection.insertMany(docs)]: the driver refuses an empty batch
    before it talks to the server. *)
Definition insertMany (collection : Collection) (docs : list value) : M unit :=
  match docs with
  | [] => throw (InvalidArgument "Invalid BulkOperation, Batch cannot be empty")
  | _ => server_insert (InsertMany (coll_name collection) docs)
           (coll_name collection) docs
  end.

(** [collection.insertOne(doc)] *)
Definition insertOne (collection : Collection) (doc : value) : M unit :=
  server_insert (InsertOne (coll_name collection) doc)
    (coll_name collection) [doc].

Definition storeData (collectionName : string) (data : value) : M unit :=
  database ← connectToMongo;
  let collection := {| coll_db := database; coll_name := collectionName |} in
  try_catch
    (match data with
     | VArr docs =>
         if (0 <? length docs)%nat then
           insertMany collection docs;;
           console_log ("Inserted " +:+ pretty (length docs) +:+
                        " documents into " +:+ collectionName)
         else mret ()
     | _ =>
         insertOne collection data;;
         console_log ("Inserted 1 document into " +:+ collectionName)
     end)
    (λ error,
       console_error ("Error storing data in " +:+ collectionName +:+ ":") error;;
       throw error).

(** [collection.aggregate(pipeline).toArray()] *)
Definition collection_aggregate (collection : Collection)
    (pipeline : list stage) : M (list value) := λ w,
  (Aggregation.aggregate pipeline (documents w (coll_name collection)), w).

Definition aggregateData (collectionName : string) (pipeline : list stage)
    : M (list value) :=
  database ← connectToMongo;
  let collection := {| coll_db := database; coll_name := collectionName |} in
  try_catch
    (results ← collection_aggregate collection pipeline;
     mret results)
    (λ error,
       console_error ("Error aggregating data in " +:+ collectionName +:+ ":") error;;
       throw error).

(** *** [query.ts]: the price range analysis of [runQueries] *)

Definition priceRangePipeline : list stage :=
  [ AddFields
      [ ("numericPrice",
         OToDouble
           (OReplaceAll
              (OReplaceAll (OStr "$price") (OStr "$") (OStr ""))
              (OStr ",") (OStr ""))) ];
    GroupNull
      [ ("avgPrice", Avg (OStr "$numericPrice"));
        ("minPrice", Min (OStr "$numericPrice"));
        ("maxPrice", Max (OStr "$numericPrice")) ] ].

Definition priceRangeAnalysis : M (list value) :=
  aggregateData COLLECTIONS.PRODUCTS priceRangePipeline.

(** *** The page *)

Definition record_event (e : PageEvent) : M unit :=
  modify (λ w, with_trace (trace w ++ [e]) w).

(** [page.goto(url)] *)
Definition page_goto (url : string) : M unit :=
  record_event (Goto url);;
  if loads env url
  then modify (with_location url)
  else throw (NavigationError url).

(** [page.waitForTimeout(ms)] *)
Definition page_waitForTimeout (ms : N) : M unit :=
  record_event (WaitForTimeout ms);;
  modify (λ w, with_clock (clock w + ms)%N w).

(** [page.evaluate(() => window.scrollTo(0, document.body.scrollHeight * num / den))] *)
Definition page_scrollTo (num den : N) : M unit :=
  record_event (ScrollTo num den).

(** [page.extract({ instruction, schema })]: the service answers for the
    page shown; an answer of the wrong shape is an error. *)
Definition page_extract (instruction : string) (shape : schema) : M value :=
  record_event (Extract instruction);;
  url ← read location;
  match extraction env url instruction with
  | Some data =>
      if conforms shape data then mret data
      else throw (ExtractionError instruction)
  | None => throw (ExtractionError instruction)
  end.

(** *** [scraper.ts] *)

Definition listInstruction : string :=
  "Extract all product information from this Amazon category page, including product names, prices, URLs, ratings, and image URLs".

Definition listSchema : schema :=
  ZObject
    [ ("products",
       ZArray (ZObject
         [ ("name", ZString);
           ("price", ZString);
           ("url", ZString);
           ("imageUrl", ZOptional ZString);
           ("rating", ZOptional ZNumber);
           ("reviewCount", ZOptional ZNumber) ]));
      ("category", ZString);
      ("totalProducts", ZOptional ZNumber) ].

(** The callback of [data.products.map], lines 43-46. *)
Definition stampProduct (product : value) : M value :=
  now ← new_Date;
  mret (VObj (<["dateScraped" := now]> (fields product))).

Definition scrapeProductList (categoryUrl : string) : M value :=
  page_goto categoryUrl;;
  page_waitForTimeout 2000;;
  page_scrollTo 1 2;;
  page_waitForTimeout 1000;;
  page_scrollTo 1 1;;
  page_waitForTimeout 1000;;
  data ← page_extract listInstruction listSchema;
  products ← array_map (get data "products") stampProduct;
  now ← new_Date;
  let productList :=
    VObj (<["dateScraped" := now]>
         (<["websiteName" := VStr "Amazon"]>
         (<["totalProducts" := get data "totalProducts"]>
         (<["page" := VNum 1]>
         (<["category" := get data "category"]>
         (<["products" := products]> ∅)))))) in
  storeData COLLECTIONS.PRODUCT_LISTS productList;;
  storeData COLLECTIONS.PRODUCTS products;;
  mret productList.

Definition detailInstruction : string :=
  "Extract detailed product information from this Amazon product page, including name, price, description, specifications, brand, category, image URL, rating, review count, and availability".

Definition scrapeProductDetails (productUrl : string) : M value :=
  page_goto productUrl;;
  page_waitForTimeout 2000;;
  page_scrollTo 1 3;;
  page_waitForTimeout 1000;;
  page_scrollTo 2 3;;
  page_waitForTimeout 1000;;
  product ← page_extract detailInstruction (omit "dateScraped" ProductSchema);
  now ← new_Date;
  let completeProduct :=
    VObj (<["dateScraped" := now]>
         (<["url" := VStr productUrl]> (fields product))) in
  storeData COLLECTIONS.PRODUCTS completeProduct;;
  mret completeProduct.

Definition reviewsInstruction : string :=
  "Extract all product reviews from this Amazon reviews page, including review text, rating, author, title, date, and helpful count".

Definition reviewsSchema : schema :=
  ZObject
    [ ("productId", ZString);
      ("reviews",
       ZArray (ZObject
         [ ("author", ZOptional ZString);
           ("rating", ZNumber);
           ("title", ZOptional ZString);
           ("content", ZString);
           ("date", ZOptional ZString);
           ("helpful", ZOptional ZNumber) ])) ].

(** The callback of [data.reviews.map], lines 132-138. *)
Definition processReview (data review : value) : M value :=
  let date :=
    if truthy (get review "date") then new_Date_from (get review "date")
    else VUndefined in
  now ← new_Date;
  mret (VObj (<["verified" := VBool true]>
             (<["dateScraped" := now]>
             (<["date" := date]>
             (<["productId" := get data "productId"]> (fields review)))))).

Definition scrapeProductReviews (productUrl : string) : M unit :=
  page_goto (reviewsUrl productUrl);;
  page_waitForTimeout 2000;;
  data ← page_extract reviewsInstruction reviewsSchema;
  reviews ← array_map (get data "reviews") (processReview data);
  if (0 <? array_length reviews)%nat then
    storeData COLLECTIONS.REVIEWS reviews;;
    console_log ("Stored " +:+ pretty (array_length reviews) +:+
                 " reviews for product " +:+
                 string_of (get data "productId"))
  else mret ().

(** *** [index.ts]: the scraping phase of [main] *)

Definition categoryUrl : string := "https://www.amazon.com/s?k=laptops".

(** [arr.slice(0, n)] *)
Definition slice_first (n : nat) (arr : value) : list value :=
  match arr with
  | VArr l => take n l
  | _ => []
  end.

(** The [try] block of one loop iteration. *)
Definition scrapeOne (product : value) : M unit :=
  detailedProduct ← scrapeProductDetails (string_of (get product "url"));
  console_log ("✅ Scraped detailed information for: " +:+
               string_of (get detailedProduct "name"));;
  console_log ("📊 Scraping reviews for: " +:+
               string_of (get detailedProduct "name"));;
  scrapeProductReviews (string_of (get product "url"));;
  page_waitForTimeout 2000.

Definition startLine (total index : nat) (product : value) : string :=
  "📊 Scraping details for product " +:+ pretty (index + 1) +:+ "/" +:+
  pretty total +:+ ": " +:+ string_of (get product "name").

Definition errorLine (product : value) : string :=
  "❌ Error scraping product " +:+ string_of (get product "name") +:+ ":".

(** The body of the [for] loop. *)
Definition scrapeEntry (total index : nat) (product : value) : M unit :=
  console_log (startLine total index product);;
  try_catch (scrapeOne product)
    (λ error, console_error (errorLine product) error).

(** Lines from [const productsToScrape] to the end of the loop. *)
Definition scrapeFirstProducts (productList : value) : M unit :=
  let productsToScrape := slice_first 3 (get productList "products") in
  for_entries (scrapeEntry (length productsToScrape)) 0 productsToScrape.

(** [main] up to the end of the loop; [report] is what follows it (the
    call of [runQueries] in one version of the file, inline queries in
    the other). *)
Definition main (report : M unit) : M unit :=
  try_finally
    (try_catch
       (connectToMongo;;
        console_log "📊 Starting to scrape product listing...";;
        productList ← scrapeProductList categoryUrl;
        console_log ("✅ Scraped " +:+
                     pretty (array_length (get productList "products")) +:+
                     " products from category: " +:+
                     string_of (get productList "category"));;
        scrapeFirstProducts productList;;
        report;;
        console_log "🎉 Scraping and MongoDB operations completed successfully!")
       (λ error, console_error "❌ Error during scraping:" error))
    closeMongo.

End Program.

(** ** Vocabulary of the statements *)

(** The gateway can hand out a database: it holds one, or the server
    answers at the configured address. *)
Definition available (env : Env) (w : World) : Prop :=
  is_Some (db w) ∨ reachable env (MONGO_URI env) = true.

(** The record [stampProduct] builds when the clock reads [t]. *)
Definition stamped (t : N) (product : value) : value :=
  VObj (<["dateScraped" := VDate (DateAt t)]> (fields product)).

(** The record [processReview] builds when the clock reads [t]. *)
Definition processed (t : N) (data review : value) : value :=
  VObj (<["verified" := VBool true]>
       (<["dateScraped" := VDate (DateAt t)]>
       (<["date" := if truthy (get review "date")
                    then new_Date_from (get review "date")
                    else VUndefined]>
       (<["productId" := get data "productId"]> (fields review))))).

(** Running [m] leaves the module's database handle as it is. *)
Definition keeps_handle {A} (m : M A) : Prop := ∀ w, db (m w).2 = db w.

(** The URLs the page was sent to, in order. *)
Definition navigations (t : list PageEvent) : list string :=
  omap (λ e, match e with Goto url => Some url | _ => None end) t.

(** From [w] to [w'] the page was sent to exactly the URLs [urls], and the
    console only grew. *)
Definition visits (urls : list string) (w w' : World) : Prop :=
  navigations (trace w') = navigations (trace w) ++ urls ∧
  console w `prefix_of` console w'.

(** Every run of [m], whatever its outcome, visits [urls]. *)
Definition always {A} (urls : list string) (m : M A) : Prop :=
  ∀ w r w', m w = (r, w') → visits urls w w'.

(** The URL of a listed product. *)
Definition url_of (product : value) : string := string_of (get product "url").

(** The pages one loop iteration opens for [product]: its own page, and
    its reviews page when [detailed] (the detail scrape went through). *)
Definition item_visits (product : value) (detailed : bool) : list string :=
  url_of product :: if detailed then [reviewsUrl (url_of product)] else [].

(** The detail scrape of [product] goes through from every state. *)
Definition details_total (env : Env) (product : value) : Prop :=
  ∀ w, ∃ detailedProduct w',
    scrapeProductDetails env (url_of product) w = (Ok detailedProduct, w').

(** The site serves the page of [product] and the service describes it. *)
Definition detail_served (env : Env) (product : value) : Prop :=
  loads env (url_of product) = true ∧
  ∃ d, extraction env (url_of product) detailInstruction = Some d ∧
       conforms (omit "dateScraped" ProductSchema) d = true.

(** ** Sample data: a catalogue of five laptops and a fresh world *)
Module Sample.

Definition obj (l : list (string * value)) : value := VObj (list_to_map l).

Definition blank : World :=
  {| client := None; db := None; clients_made := 0; connects := 0;
     collections := ∅; writes := []; location := "about:blank";
     trace := []; clock := 0; console := [] |}.

Definition productUrl (asin : string) : string :=
  "https://www.amazon.com/dp/" +:+ asin.

Definition entry (asin name price : string) : value :=
  obj [("name", VStr name); ("price", VStr price);
       ("url", VStr (productUrl asin))].

Definition entries : list value :=
  [ entry "B001" "Laptop One" "$19.99";
    entry "B002" "Laptop Two" "$1,234.56";
    entry "B003" "Laptop Three" "$300.00";
    entry "B004" "Laptop Four" "$450.00";
    entry "B005" "Laptop Five" "$999.00" ].

Definition listing : value :=
  obj [("products", VArr entries); ("category", VStr "Laptops")].

Definition detail : value :=
  obj [("name", VStr "Laptop"); ("price", VStr "$19.99");
       ("url", VStr "https://www.amazon.com/"); ("brand", VStr "Acme")].

Definition review (author text : string) : value :=
  obj [("author", VStr author); ("rating", VNum 5); ("content", VStr text);
       ("date", VStr "2024-03-01")].

(** A review whose date came back as the empty string. *)
Definition undated : value :=
  obj [("rating", VNum 4); ("content", VStr "fine"); ("date", VStr "")].

Definition reviewed (asin : string) (reviews : list value) : value :=
  obj [("productId", VStr asin); ("reviews", VArr reviews)].

(** What the extraction service returns: the catalogue on the category
    page, a product on every other page, and reviews on review pages
    (none for B003). *)
Definition site (url instruction : string) : option value :=
  if String.eqb instruction listInstruction then
    if String.eqb url categoryUrl then Some listing else None
  else if String.eqb instruction detailInstruction then Some detail
  else if String.eqb instruction reviewsInstruction then
    if String.eqb url "https://www.amazon.com/product-reviews/B003"
    then Some (reviewed "B003" [])
    else Some (reviewed "B00X" [review "ann" "good"; undated])
  else None.

Definition env : Env :=
  {| env_MONGO_URI := None; env_DB_NAME := None;
     reachable := λ _, true; rejects := λ _ _, false;
     loads := λ _, true; extraction := site |}.

(** The same, but the page of the second laptop does not load. *)
Definition flaky : Env :=
  {| env_MONGO_URI := None; env_DB_NAME := None;
     reachable := λ _, true; rejects := λ _ _, false;
     loads := λ url, negb (String.eqb url (productUrl "B002"));
     extraction := site |}.

(** Two stored products, priced as in the reporting example. *)
Definition priced : World :=
  with_collections
    (<[COLLECTIONS.PRODUCTS :=
         [ obj [("name", VStr "a"); ("price", VStr "$19.99")];
           obj [("name", VStr "b"); ("price", VStr "$1,234.56")] ]]> ∅)
    blank.

(** [priceRangePipeline] with the dollar sign written [{ $literal: "$" }].
    This is not in the repository; it tells what the analysis computes
    once the server accepts the pipeline. *)
Definition literalPipeline : list stage :=
  [ AddFields
      [ ("numericPrice",
         OToDouble
           (OReplaceAll
              (OReplaceAll (OStr "$price") (OLiteral (VStr "$")) (OStr ""))
              (OStr ",") (OStr ""))) ];
    GroupNull
      [ ("avgPrice", Avg (OStr "$numericPrice"));
        ("minPrice", Min (OStr "$numericPrice"));
        ("maxPrice", Max (OStr "$numericPrice")) ] ].

End Sample.

(** ** [mongodb.ts]: [findData]

    A filter is a list of conditions on fields, [[]] being [{}]: the
    operators the repository uses are [$gte] with a number and [$exists].
    [$gte] holds for a number at least the bound, or an array with such an
    element; [$exists] looks at whether the document has the field. *)
Inductive condition :=
  | Gte (bound : float)
  | Exists (present : bool).

Definition query : Type := list (string * condition).

Definition at_least (bound : float) (v : value) : bool :=
  match v with
  | VNum x => PrimFloat.leb bound x
  | _ => false
  end.

Definition satisfies (doc : value) (field : string) (c : condition) : bool :=
  match c with
  | Gte bound =>
      match fields doc !! field with
      | Some (VArr l) => existsb (at_least bound) l
      | Some v => at_least bound v
      | None => false
      end
  | Exists present =>
      Bool.eqb (bool_decide (is_Some (fields doc !! field))) present
  end.

Definition matches (q : query) (doc : value) : bool :=
  forallb (λ '(field, c), satisfies doc field c) q.

(** [collection.find(query).toArray()] *)
Definition collection_find (collection : Collection) (q : query)
    : M (list value) :=
  read (λ w, List.filter (matches q) (documents w (coll_name collection))).

Definition findData (env : Env) (collectionName : string) (q : query)
    : M (list value) :=
  database ← connectToMongo env;
  let collection := {| coll_db := database; coll_name := collectionName |} in
  try_catch
    (documents ← collection_find collection q;
     mret documents)
    (λ error,
       console_error ("Error finding data in " +:+ collectionName +:+ ":") error;;
       throw error).

(** ** More vocabulary *)

(** The module variables are consistent: a held database belongs to the
    held client, and the held client is one of the clients built so far. *)
Definition linked (w : World) : Prop :=
  (∀ d, db w = Some d → client w = Some (db_client d)) ∧
  (∀ c, client w = Some c → client_id c < clients_made w).

(** [w'] differs from [w] at most in page, clock and console. *)
Definition same_gateway (w w' : World) : Prop :=
  client w' = client w ∧ db w' = db w ∧ clients_made w' = clients_made w ∧
  connects w' = connects w ∧ collections w' = collections w ∧
  writes w' = writes w.

(** Every run of [m], whatever its outcome, takes the world from [w] to a
    [w'] with [R w w']. *)
Definition preserves {A} (R : World → World → Prop) (m : M A) : Prop :=
  ∀ w r w', m w = (r, w') → R w w'.

(** Documents are only ever added at the end of a collection. *)
Definition append_only (w w' : World) : Prop :=
  ∀ c, documents w c `prefix_of` documents w' c.

(** No collection outside [names] has changed. *)
Definition touches_only (names : list string) (w w' : World) : Prop :=
  ∀ c, c ∉ names → documents w' c = documents w c.

(** Either the session state is as before, or there was no database and
    exactly one session was opened to get one. *)
Definition session_step (w w' : World) : Prop :=
  (db w' = db w ∧ connects w' = connects w) ∨
  (db w = None ∧ is_Some (db w') ∧ connects w' = S (connects w)).

(** An invariant seen as a relation between the start and the end of a run. *)
Definition keeps (I : World → Prop) (w w' : World) : Prop := I w → I w'.


(** Nothing was stored and the server got no insert. *)
Definition unwritten (w w' : World) : Prop :=
  collections w' = collections w ∧ writes w' = writes w.

(** ** Faulty surroundings for the sample data *)
Module Faulty.

(** No server answers. *)
Definition offline : Env :=
  {| env_MONGO_URI := None; env_DB_NAME := None;
     reachable := λ _, false; rejects := λ _ _, false;
     loads := λ _, true; extraction := Sample.site |}.

(** The server refuses the third laptop of the catalogue. *)
Definition picky : Env :=
  {| env_MONGO_URI := None; env_DB_NAME := None;
     reachable := λ _, true;
     rejects := λ _ doc, String.eqb (string_of (get doc "name")) "Laptop Three";
     loads := λ _, true; extraction := Sample.site |}.

(** The server refuses every product, and nothing else. *)
Definition no_products : Env :=
  {| env_MONGO_URI := None; env_DB_NAME := None;
     reachable := λ _, true;
     rejects := λ c _, String.eqb c COLLECTIONS.PRODUCTS;
     loads := λ _, true; extraction := Sample.site |}.

(** No page loads. *)
Definition unloadable : Env :=
  {| env_MONGO_URI := None; env_DB_NAME := None;
     reachable := λ _, true; rejects := λ _ _, false;
     loads := λ _, false; extraction := Sample.site |}.

(** The extraction service gives no answer. *)
Definition mute : Env :=
  {| env_MONGO_URI := None; env_DB_NAME := None;
     reachable := λ _, true; rejects := λ _ _, false;
     loads := λ _, true; extraction := λ _ _, None |}.

(** The sample world once [connectToMongo] has succeeded. *)
Definition connected : World := (connectToMongo Sample.env Sample.blank).2.

End Faulty.

(* ================================================================== *)
(** * Theorems *)

Section StringFacts.

Import JsString.

Lemma app_nil_s (b : string) : "" +:+ b = b.
Proof. reflexivity. Qed.

Lemma app_cons_s c (a b : string) : String c a +:+ b = String c (a +:+ b).
Proof. reflexivity. Qed.

Lemma app_assoc_s (a b c : string) : (a +:+ b) +:+ c = a +:+ (b +:+ c).
Proof.
  induction a as [|x a IH]; [done|]. rewrite !app_cons_s. by f_equal.
Qed.

Lemma length_app_s (a b : string) :
  String.length (a +:+ b) = String.length a + String.length b.
Proof.
  induction a as [|x a IH]; [done|]. rewrite app_cons_s. simpl. by f_equal.
Qed.

Lemma prefix_app (pat post : string) : String.prefix pat (pat +:+ post) = true.
Proof.
  induction pat as [|c pat IH]; [by rewrite app_nil_s; destruct post|].
  rewrite app_cons_s. simpl.
  destruct (Ascii.ascii_dec c c); [done | congruence].
Qed.

Lemma prefix_split (pat s : string) :
  String.prefix pat s = true → ∃ post, s = pat +:+ post.
Proof.
  revert s. induction pat as [|c pat IH]; intros s H.
  - by exists s.
  - destruct s as [|d s]; [done|]. simpl in H.
    destruct (Ascii.ascii_dec c d) as [->|]; [|done].
    destruct (IH _ H) as [post ->]. by exists post.
Qed.

Lemma drop_app_length (a b : string) : drop (String.length a) (a +:+ b) = b.
Proof. induction a as [|x a IH]; [done|]. rewrite app_cons_s. simpl. done. Qed.

Lemma includes_unfold (pat s : string) :
  includes pat s =
  if String.prefix pat s then true
  else match s with
       | EmptyString => false
       | String _ s' => includes pat s'
       end.
Proof. by destruct s. Qed.

Lemma replace_unfold (pat rep s : string) :
  replace pat rep s =
  if String.prefix pat s then rep +:+ drop (String.length pat) s
  else match s with
       | EmptyString => EmptyString
       | String c s' => String c (replace pat rep s')
       end.
Proof. by destruct s. Qed.

Lemma includes_app (pat pre post : string) :
  includes pat (pre +:+ pat +:+ post) = true.
Proof.
  induction pre as [|c pre IH].
  - by rewrite app_nil_s, includes_unfold, prefix_app.
  - rewrite app_cons_s, includes_unfold, IH. by destruct (String.prefix pat _).
Qed.

(** [includes] is substring containment, and a contained pattern has a
    first occurrence: no match starts before the end of [pre]. *)
Lemma includes_first (pat s : string) :
  includes pat s = true →
  ∃ pre post, s = pre +:+ pat +:+ post ∧
    ∀ i, i < String.length pre → occurs_at pat s i = false.
Proof.
  induction s as [|c s IH]; rewrite includes_unfold.
  - destruct (String.prefix pat "") eqn:E; [|done]. intros _.
    destruct (prefix_split _ _ E) as [post Hp].
    exists "", post. split; [done|]. simpl; lia.
  - destruct (String.prefix pat (String c s)) eqn:E.
    + intros _. destruct (prefix_split _ _ E) as [post Hp].
      exists "", post. split; [done|]. simpl; lia.
    + intros H. destruct (IH H) as (pre & post & -> & Hfirst).
      exists (String c pre), post. split; [done|].
      intros [|i] Hi.
      * unfold occurs_at. cbn [drop Nat.leb andb]. exact E.
      * simpl in Hi. specialize (Hfirst i ltac:(lia)).
        unfold occurs_at in *. exact Hfirst.
Qed.

Lemma includes_spec (pat s : string) :
  includes pat s = true ↔ ∃ pre post, s = pre +:+ pat +:+ post.
Proof.
  split.
  - intros H. destruct (includes_first _ _ H) as (pre & post & ? & _); eauto.
  - intros (pre & post & ->). apply includes_app.
Qed.

(** [replace] splices the replacement in at the first occurrence. *)
Lemma replace_first (pat rep pre post : string) :
  (∀ i, i < String.length pre → occurs_at pat (pre +:+ pat +:+ post) i = false) →
  replace pat rep (pre +:+ pat +:+ post) = pre +:+ rep +:+ post.
Proof.
  induction pre as [|c pre IH]; intros Hfirst.
  - by rewrite !app_nil_s, replace_unfold, prefix_app, drop_app_length.
  - pose proof (Hfirst 0 ltac:(simpl; lia)) as H0.
    unfold occurs_at in H0. rewrite app_cons_s in H0.
    cbn [drop Nat.leb andb] in H0.
    rewrite !app_cons_s, replace_unfold, H0.
    f_equal. apply IH. intros i Hi.
    specialize (Hfirst (S i) ltac:(simpl; lia)).
    unfold occurs_at in *. exact Hfirst.
Qed.

End StringFacts.

Section ReviewsUrl.

Import JsString.

Lemma drop_app_ge (a b : string) (k : nat) :
  drop (String.length a + k) (a +:+ b) = drop k b.
Proof. induction a as [|x a IH]; [done|]. rewrite app_cons_s. exact IH. Qed.

Lemma reviewsUrl_present (pre post : string) :
  (∀ i, i < String.length pre →
        occurs_at "/dp/" (pre +:+ "/dp/" +:+ post) i = false) →
  reviewsUrl (pre +:+ "/dp/" +:+ post) = pre +:+ "/product-reviews/" +:+ post.
Proof.
  intros Hfirst. unfold reviewsUrl.
  rewrite includes_app. by apply replace_first.
Qed.

Lemma reviewsUrl_absent (productUrl : string) :
  (∀ pre post, productUrl ≠ pre +:+ "/dp/" +:+ post) →
  reviewsUrl productUrl = productUrl.
Proof.
  intros Hno. unfold reviewsUrl.
  destruct (includes "/dp/" productUrl) eqn:E; [|done].
  apply includes_spec in E as (pre & post & ->). by destruct (Hno pre post).
Qed.

(** C4: the reviews-page URL is the product URL with the literal [/dp/]
    replaced by [/product-reviews/]; a URL that does not contain [/dp/] is
    left as it is, and [https://site/dp/ABC123] maps to
    [https://site/product-reviews/ABC123]. *)
Theorem reviewsUrl_derivation (productUrl : string) :
  ((∃ pre post, productUrl = pre +:+ "/dp/" +:+ post) →
   ∃ pre post, productUrl = pre +:+ "/dp/" +:+ post ∧
               reviewsUrl productUrl = pre +:+ "/product-reviews/" +:+ post)
  ∧ ((∀ pre post, productUrl ≠ pre +:+ "/dp/" +:+ post) →
     reviewsUrl productUrl = productUrl)
  ∧ reviewsUrl "https://site/dp/ABC123" = "https://site/product-reviews/ABC123".
Proof.
  split; [|split; [apply reviewsUrl_absent | reflexivity]].
  intros Hin. apply includes_spec, includes_first in Hin.
  destruct Hin as (pre & post & -> & Hfirst).
  exists pre, post. split; [done|]. by apply reviewsUrl_present.
Qed.

Lemma reviewsUrl_derivation_witness :
  (∃ pre post, "https://www.amazon.com/dp/B0C1/ref=sr_1" =
               pre +:+ "/dp/" +:+ post ∧
     reviewsUrl "https://www.amazon.com/dp/B0C1/ref=sr_1" =
     pre +:+ "/product-reviews/" +:+ post)
  ∧ reviewsUrl "https://www.amazon.com/s?k=laptops" =
    "https://www.amazon.com/s?k=laptops".
Proof.
  split.
  - apply (proj1 (reviewsUrl_derivation "https://www.amazon.com/dp/B0C1/ref=sr_1")).
    by exists "https://www.amazon.com", "B0C1/ref=sr_1".
  - apply (proj1 (proj2 (reviewsUrl_derivation "https://www.amazon.com/s?k=laptops"))).
    intros pre post Heq.
    assert (includes "/dp/" "https://www.amazon.com/s?k=laptops" = true) as Hc
      by (apply includes_spec; eauto).
    vm_compute in Hc. discriminate Hc.
Defined.

(** After the first occurrence everything stays as it was: a later
    occurrence of [/dp/] is found again, moved by the 13 characters the
    replacement is longer. *)
Lemma later_occurrences_kept (pre post : string) (j : nat) :
  String.length pre < j →
  occurs_at "/dp/" (pre +:+ "/dp/" +:+ post) j = true →
  occurs_at "/dp/" (pre +:+ "/product-reviews/" +:+ post) (j + 13) = true.
Proof.
  intros Hj. unfold occurs_at.
  rewrite !length_app_s.
  replace j with (String.length pre + (j - String.length pre)) at 2 4 by lia.
  replace (String.length pre + (j - String.length pre) + 13)
    with (String.length pre + (13 + (j - String.length pre))) by lia.
  rewrite !drop_app_ge.
  intros [Hlen Hocc]%andb_prop. apply Nat.leb_le in Hlen.
  apply andb_true_intro. split.
  { apply Nat.leb_le. change (String.length "/dp/") with 4 in Hlen.
    change (String.length "/product-reviews/") with 17. lia. }
  destruct (j - String.length pre) as [|[|[|[|k]]]] eqn:Ek; [lia| | | |].
  - vm_compute in Hocc. discriminate Hocc.
  - vm_compute in Hocc. discriminate Hocc.
  - exact Hocc.
  - exact Hocc.
Qed.

(** C10: only the first occurrence of [/dp/] is rewritten.  A URL that
    contains [/dp/] splits at its first occurrence into [pre], [/dp/] and
    [post]; the reviews URL is [pre], [/product-reviews/] and [post], so
    every occurrence of [/dp/] after the first is still there. *)
Theorem reviewsUrl_first_only (productUrl : string) :
  (∃ pre post, productUrl = pre +:+ "/dp/" +:+ post) →
  ∃ pre post,
    productUrl = pre +:+ "/dp/" +:+ post ∧
    (∀ i, i < String.length pre → occurs_at "/dp/" productUrl i = false) ∧
    reviewsUrl productUrl = pre +:+ "/product-reviews/" +:+ post ∧
    (∀ j, String.length pre < j →
          occurs_at "/dp/" productUrl j = true →
          occurs_at "/dp/" (reviewsUrl productUrl) (j + 13) = true).
Proof.
  intros Hin. apply includes_spec, includes_first in Hin.
  destruct Hin as (pre & post & -> & Hfirst).
  exists pre, post. split; [done|]. split; [done|].
  rewrite reviewsUrl_present by done. split; [done|].
  intros j. apply later_occurrences_kept.
Qed.

Lemma reviewsUrl_first_only_witness :
  occurs_at "/dp/" "https://a.co/dp/B01/dp/B02" 19 = true ∧
  occurs_at "/dp/" (reviewsUrl "https://a.co/dp/B01/dp/B02") (19 + 13) = true.
Proof.
  split; [reflexivity|].
  destruct (reviewsUrl_first_only "https://a.co/dp/B01/dp/B02")
    as (pre & post & _ & Hfirst & _ & Hlater).
  - by exists "https://a.co", "B01/dp/B02".
  - apply Hlater; [|reflexivity].
    destruct (decide (String.length pre ≤ 12)%nat) as [|Hgt]; [lia|].
    specialize (Hfirst 12 ltac:(lia)). vm_compute in Hfirst. discriminate Hfirst.
Defined.

(** The example with two occurrences, evaluated. *)
Example reviewsUrl_twice :
  reviewsUrl "https://a.co/dp/B01/dp/B02" = "https://a.co/product-reviews/B01/dp/B02".
Proof. reflexivity. Qed.

End ReviewsUrl.

Create HintDb quiet.

(** ** Running monadic code one call at a time *)
Section Steps.

Variable env : Env.

Lemma run_bind {A B} (m : M A) (f : A → M B) (w : World) :
  (m ≫= f) w =
  match m w with
  | (Ok a, w') => f a w'
  | (Throw e, w') => (Throw e, w')
  end.
Proof. reflexivity. Qed.

Lemma bind_ok {A B} (m : M A) (f : A → M B) (w w' : World) (a : A) :
  m w = (Ok a, w') → (m ≫= f) w = f a w'.
Proof. intros H. by rewrite run_bind, H. Qed.

Lemma page_goto_ok (url : string) (w : World) :
  loads env url = true →
  page_goto env url w =
  (Ok (), with_location url (with_trace (trace w ++ [Goto url]) w)).
Proof. intros H. unfold page_goto. rewrite run_bind. cbn. by rewrite H. Qed.

Lemma page_waitForTimeout_run (ms : N) (w : World) :
  page_waitForTimeout ms w =
  (Ok (), with_clock (clock w + ms)%N
            (with_trace (trace w ++ [WaitForTimeout ms]) w)).
Proof. reflexivity. Qed.

Lemma page_scrollTo_run (num den : N) (w : World) :
  page_scrollTo num den w =
  (Ok (), with_trace (trace w ++ [ScrollTo num den]) w).
Proof. reflexivity. Qed.

Lemma page_extract_ok (instruction : string) (shape : schema)
    (data : value) (w : World) :
  extraction env (location w) instruction = Some data →
  conforms shape data = true →
  page_extract env instruction shape w =
  (Ok data, with_trace (trace w ++ [Extract instruction]) w).
Proof.
  intros He Hc. unfold page_extract. rewrite run_bind. cbn.
  rewrite run_bind. cbn. by rewrite He, Hc.
Qed.

Lemma new_Date_run (w : World) : new_Date w = (Ok (VDate (DateAt (clock w))), w).
Proof. reflexivity. Qed.

Lemma console_log_run (msg : string) (w : World) :
  console_log msg w = (Ok (), with_console (console w ++ [Log msg]) w).
Proof. reflexivity. Qed.

Lemma console_error_run (msg : string) (e : error) (w : World) :
  console_error msg e w =
  (Ok (), with_console (console w ++ [LogError msg e]) w).
Proof. reflexivity. Qed.

(** A callback that only reads the world maps like a pure function. *)
Lemma map_each_pure (f : value → M value) (g : value → value)
    (l : list value) (w : World) :
  (∀ x, f x w = (Ok (g x), w)) →
  map_each f l w = (Ok (g <$> l), w).
Proof.
  intros Hf. induction l as [|x l IH]; [done|].
  cbn [map_each]. rewrite (bind_ok _ _ _ _ _ (Hf x)).
  by rewrite (bind_ok _ _ _ _ _ IH).
Qed.

Lemma stampProduct_run (product : value) (w : World) :
  stampProduct product w = (Ok (stamped (clock w) product), w).
Proof. reflexivity. Qed.

Lemma processReview_run (data review : value) (w : World) :
  processReview data review w = (Ok (processed (clock w) data review), w).
Proof. reflexivity. Qed.

Lemma array_map_pure (f : value → M value) (g : value → value)
    (l : list value) (w : World) :
  (∀ x, f x w = (Ok (g x), w)) →
  array_map (VArr l) f w = (Ok (VArr (g <$> l)), w).
Proof.
  intros Hf. cbn [array_map]. by rewrite run_bind, (map_each_pure f g).
Qed.

End Steps.

Section Gateway.

Variable env : Env.

Lemma connect_held (w : World) (d : Db) :
  db w = Some d → connectToMongo env w = (Ok d, w).
Proof. intros H. unfold connectToMongo, read, mbind, M_bind. by rewrite H. Qed.

Lemma connect_fresh (w : World) :
  db w = None → reachable env (MONGO_URI env) = true →
  ∃ d w', connectToMongo env w = (Ok d, w') ∧ db w' = Some d ∧
          connects w' = S (connects w) ∧
          collections w' = collections w ∧ writes w' = writes w ∧
          location w' = location w ∧ trace w' = trace w ∧
          clock w' = clock w ∧
          console w' = console w ++ [Log "Connected to MongoDB"].
Proof.
  intros Hdb Hup. unfold connectToMongo, read, mbind, M_bind. rewrite Hdb.
  unfold try_catch, new_MongoClient, client_connect. cbn. rewrite Hup. cbn.
  eexists _, _. split; [reflexivity|]. cbn. done.
Qed.

(** With a database to be had, connecting succeeds and leaves the store,
    the page and the clock alone. *)
Lemma connect_available (w : World) :
  available env w →
  ∃ d w', connectToMongo env w = (Ok d, w') ∧ db w' = Some d ∧
          collections w' = collections w ∧ writes w' = writes w ∧
          location w' = location w ∧ trace w' = trace w ∧
          clock w' = clock w.
Proof.
  intros Hav. destruct (db w) as [d|] eqn:Hdb.
  - exists d, w. by rewrite (connect_held w d).
  - destruct Hav as [[? ?]|Hup]; [congruence|].
    destruct (connect_fresh w Hdb Hup) as (d & w' & ? & ? & ? & ? & ? & ? & ? & ? & ?).
    exists d, w'. done.
Qed.

Lemma keeps_ret {A} (a : A) : keeps_handle (mret a).
Proof. done. Qed.

Lemma keeps_throw {A} (e : error) : keeps_handle (@throw A e).
Proof. done. Qed.

Lemma keeps_console_log (msg : string) : keeps_handle (console_log msg).
Proof. done. Qed.

Lemma keeps_console_error (msg : string) (e : error) :
  keeps_handle (console_error msg e).
Proof. done. Qed.

Lemma keeps_bind {A B} (m : M A) (f : A → M B) :
  keeps_handle m → (∀ a, keeps_handle (f a)) → keeps_handle (m ≫= f).
Proof.
  intros Hm Hf w. rewrite run_bind. specialize (Hm w).
  destruct (m w) as [[a|e] w1]; cbn in *; [by rewrite Hf | done].
Qed.

Lemma keeps_try_catch {A} (body : M A) (handler : error → M A) :
  keeps_handle body → (∀ e, keeps_handle (handler e)) →
  keeps_handle (try_catch body handler).
Proof.
  intros Hb Hh w. unfold try_catch. specialize (Hb w).
  destruct (body w) as [[a|e] w1]; cbn in *; [done | by rewrite Hh].
Qed.

Lemma keeps_server_insert (op : WriteOp) (c : string) (docs : list value) :
  keeps_handle (server_insert env op c docs).
Proof.
  intros w. unfold server_insert.
  by destruct (insert_ordered env c docs (documents w c)).
Qed.

#[local] Hint Resolve keeps_ret keeps_throw keeps_console_log
  keeps_console_error keeps_server_insert : quiet.

(** The other calls of the gateway leave a held handle in place. *)
Lemma storeData_keeps_handle (c : string) (data : value) (w : World) (h : Db) :
  db w = Some h → db (storeData env c data w).2 = Some h.
Proof.
  intros Hdb. unfold storeData. rewrite run_bind, (connect_held w h Hdb).
  cbv beta iota zeta. rewrite <- Hdb. apply keeps_try_catch.
  - destruct data as [| | | | | | docs |];
      try (unfold insertOne; apply keeps_bind; by auto with quiet).
    destruct (0 <? length docs)%nat; [|auto with quiet].
    apply keeps_bind; [|auto with quiet].
    unfold insertMany. destruct docs; auto with quiet.
  - intros e. apply keeps_bind; auto with quiet.
Qed.

Lemma aggregateData_keeps_handle (c : string) (pipeline : list stage)
    (w : World) (h : Db) :
  db w = Some h → db (aggregateData env c pipeline w).2 = Some h.
Proof.
  intros Hdb. unfold aggregateData. rewrite run_bind, (connect_held w h Hdb).
  cbv beta iota zeta. rewrite <- Hdb. apply keeps_try_catch.
  - apply keeps_bind; [done | auto with quiet].
  - intros e. apply keeps_bind; auto with quiet.
Qed.

(** C2: once [connectToMongo] has returned a handle, connecting again,
    twice in a row or any number of times, returns that same handle and
    changes nothing: no client is built and no session is opened.  The same
    holds from any later state in which the module still holds the handle,
    and [storeData] and [aggregateData] leave it in place. *)
Theorem connect_idempotent (w w1 : World) (h : Db) :
  connectToMongo env w = (Ok h, w1) →
  db w1 = Some h
  ∧ (connectToMongo env;; connectToMongo env) w = (Ok h, w1)
  ∧ (∀ n, Nat.iter n (λ again, connectToMongo env;; again)
            (connectToMongo env) w1 = (Ok h, w1))
  ∧ (∀ w2, db w2 = Some h →
           connectToMongo env w2 = (Ok h, w2) ∧
           (∀ c data, db (storeData env c data w2).2 = Some h) ∧
           (∀ c pipeline, db (aggregateData env c pipeline w2).2 = Some h)).
Proof.
  intros Hc.
  assert (db w1 = Some h) as Hdb.
  { revert Hc. unfold connectToMongo, read, mbind, M_bind.
    destruct (db w) as [d|] eqn:E.
    - intros [= -> ->]. done.
    - unfold try_catch, new_MongoClient, client_connect. cbn.
      destruct (reachable env (MONGO_URI env)); cbn; [|done].
      intros [= <- <-]. done. }
  split; [done|]. split; [|split].
  - rewrite run_bind, Hc. by apply connect_held.
  - induction n as [|n IH]; [by apply connect_held|].
    rewrite Nat.iter_succ, run_bind, (connect_held w1 h Hdb). exact IH.
  - intros w2 H2. split; [by apply connect_held|].
    split; intros; [by apply storeData_keeps_handle
                   | by apply aggregateData_keeps_handle].
Qed.

Lemma insert_ordered_ok (collectionName : string) (docs stored : list value) :
  (∀ doc, doc ∈ docs → rejects env collectionName doc = false) →
  insert_ordered env collectionName docs stored = (Ok (), stored ++ docs).
Proof.
  revert stored. induction docs as [|doc docs IH]; intros stored Hok; simpl.
  - by rewrite app_nil_r.
  - rewrite Hok by set_solver.
    rewrite IH by set_solver. by rewrite <- app_assoc.
Qed.

Lemma server_insert_ok (op : WriteOp) (collectionName : string)
    (docs : list value) (w : World) :
  (∀ doc, doc ∈ docs → rejects env collectionName doc = false) →
  server_insert env op collectionName docs w =
  (Ok (),
   with_collections
     (<[collectionName := documents w collectionName ++ docs]> (collections w))
     (with_writes (writes w ++ [op]) w)).
Proof.
  intros Hok. unfold server_insert. by rewrite insert_ordered_ok.
Qed.

(** Closes [documents w' c = l ∧ length (documents w' c) = n] once [w']
    is an explicit update of the world. *)
Ltac stored_docs Hcoll :=
  match goal with
  | |- ?A = ?B ∧ _ =>
      let Hd := fresh "Hd" in
      assert (A = B) as Hd
        by (unfold documents; cbn; rewrite lookup_insert_eq, ?Hcoll; done);
      split; [exact Hd | rewrite Hd, length_app; done]
  end.

(** What a successful [storeData] leaves behind. *)
Lemma storeData_ok (w : World) (collectionName : string) (data : value) :
  available env w →
  (∀ doc, (data = doc ∨ ∃ docs, data = VArr docs ∧ doc ∈ docs) →
          rejects env collectionName doc = false) →
  ∃ w', storeData env collectionName data w = (Ok (), w') ∧
    (is_Some (db w') ∧ location w' = location w ∧ trace w' = trace w ∧
     clock w' = clock w) ∧
    (∀ c, c ≠ collectionName → documents w' c = documents w c) ∧
    match data with
    | VArr [] =>
        writes w' = writes w ∧ collections w' = collections w
    | VArr docs =>
        writes w' = writes w ++ [InsertMany collectionName docs] ∧
        documents w' collectionName = documents w collectionName ++ docs ∧
        length (documents w' collectionName) =
          length (documents w collectionName) + length docs
    | _ =>
        writes w' = writes w ++ [InsertOne collectionName data] ∧
        documents w' collectionName = documents w collectionName ++ [data] ∧
        length (documents w' collectionName) =
          length (documents w collectionName) + 1
    end.
Proof.
  intros Hav Hok.
  destruct (connect_available w Hav)
    as (d & w1 & Hc & Hdb & Hcoll & Hwr & Hloc & Htr & Hclk).
  assert (∀ c, documents w1 c = documents w c) as Hdocs
    by (intros c; unfold documents; by rewrite Hcoll).
  unfold storeData, mbind at 1, M_bind at 1. rewrite Hc.
  destruct data as [| | b | x | s | dt | docs | o].
  all: try (unfold try_catch, insertOne, mbind, M_bind;
         rewrite server_insert_ok
           by (intros doc ->%list_elem_of_singleton; apply Hok; by left);
         cbn; eexists; split; [reflexivity|]; cbn;
         split; [by rewrite Hdb|];
         split; [intros c Hne; rewrite <- Hdocs; unfold documents; cbn;
                 by rewrite lookup_insert_ne|];
         rewrite Hwr; split; [done|]; stored_docs Hcoll).
  destruct docs as [|doc docs].
  - unfold try_catch. cbn. exists w1. split; [done|].
    split; [by rewrite Hdb|]. split; [intros; apply Hdocs|]. done.
  - unfold try_catch, insertMany, mbind, M_bind. cbn.
    rewrite server_insert_ok by (intros doc' Hin; apply Hok; right; eauto).
    cbn. eexists. split; [reflexivity|]. cbn.
    split; [by rewrite Hdb|].
    split; [intros c Hne; rewrite <- Hdocs; unfold documents; cbn;
            by rewrite lookup_insert_ne|].
    rewrite Hwr. split; [done|]. stored_docs Hcoll.
Qed.

(** Asking for the database, whether it works or not, stores nothing. *)
Lemma connect_stores_nothing (w w' : World) (r : result Db) :
  connectToMongo env w = (r, w') →
  collections w' = collections w ∧ writes w' = writes w.
Proof.
  unfold connectToMongo, read, mbind, M_bind, try_catch, new_MongoClient,
    client_connect. cbn.
  destruct (db w); [by intros [= <- <-]|]. cbn.
  destruct (reachable env (MONGO_URI env)); cbn; by intros [= <- <-].
Qed.

(** An empty array causes no write, available database or not. *)
Lemma storeData_empty (w : World) (collectionName : string) :
  writes (storeData env collectionName (VArr []) w).2 = writes w ∧
  collections (storeData env collectionName (VArr []) w).2 = collections w.
Proof.
  unfold storeData. rewrite run_bind.
  destruct (connectToMongo env w) as [[d|e] w1] eqn:Hc;
    destruct (connect_stores_nothing _ _ _ Hc) as [Hcoll Hwr]; done.
Qed.

(** C1: with a database to be had and a server that accepts the records,
    [storeData] succeeds; an array of N > 0 records reaches the server as
    one [insertMany] and the collection grows by exactly these N
    documents; anything that is not an array is inserted alone, by one
    [insertOne]; an empty array is not an error and causes no write (it
    causes none even when no database is to be had). *)
Theorem storeData_inserts (w : World) (collectionName : string) (data : value) :
  (data = VArr [] →
   writes (storeData env collectionName data w).2 = writes w ∧
   collections (storeData env collectionName data w).2 = collections w)
  ∧
  (available env w →
   (∀ doc, (data = doc ∨ ∃ docs, data = VArr docs ∧ doc ∈ docs) →
           rejects env collectionName doc = false) →
   ∃ w', storeData env collectionName data w = (Ok (), w') ∧
     (∀ c, c ≠ collectionName → documents w' c = documents w c) ∧
     match data with
     | VArr [] =>
         writes w' = writes w ∧ collections w' = collections w
     | VArr docs =>
         writes w' = writes w ++ [InsertMany collectionName docs] ∧
         documents w' collectionName = documents w collectionName ++ docs ∧
         length (documents w' collectionName) =
           length (documents w collectionName) + length docs
     | _ =>
         writes w' = writes w ++ [InsertOne collectionName data] ∧
         documents w' collectionName = documents w collectionName ++ [data] ∧
         length (documents w' collectionName) =
           length (documents w collectionName) + 1
     end).
Proof.
  split; [intros ->; apply storeData_empty|].
  intros Hav Hok.
  destruct (storeData_ok w collectionName data Hav Hok)
    as (w' & Hrun & _ & Hother & Hdata).
  exists w'. done.
Qed.

End Gateway.

Lemma connect_idempotent_witness :
  ∃ h w1, connectToMongo Sample.env Sample.blank = (Ok h, w1) ∧
          connects w1 = 1 ∧
          db w1 = Some h ∧
          (connectToMongo Sample.env;; connectToMongo Sample.env) Sample.blank
          = (Ok h, w1).
Proof.
  eexists _, _. split; [reflexivity|]. split; [reflexivity|].
  pose proof (connect_idempotent Sample.env Sample.blank _ _ eq_refl) as H.
  split; [exact (proj1 H) | exact (proj1 (proj2 H))].
Defined.

Lemma storeData_inserts_witness :
  (∃ w', storeData Sample.env "products" (VArr Sample.entries) Sample.blank
         = (Ok (), w') ∧
         writes w' = [InsertMany "products" Sample.entries] ∧
         length (documents w' "products") = 5)
  ∧ writes (storeData Sample.env "products" (VArr []) Sample.blank).2 = [].
Proof.
  split.
  - destruct (proj2 (storeData_inserts Sample.env Sample.blank "products"
                       (VArr Sample.entries)))
      as (w' & Hrun & _ & Hw & _ & Hlen).
    + right. reflexivity.
    + intros doc _. reflexivity.
    + exists w'. split; [exact Hrun|]. split; [exact Hw | exact Hlen].
  - exact (proj1 (proj1 (storeData_inserts Sample.env Sample.blank "products"
                           (VArr [])) eq_refl)).
Defined.

Section Reviews.

(** C5, as amended: every processed review is marked verified, carries
    the capture timestamp and the product reference of the answer, and
    keeps its other fields; its date is the parsed date text when the
    entry has a non-empty date string, and undefined when the entry has no
    date or an empty one. *)
Theorem processReview_fields (data review : value) (w : World) :
  ∃ r, processReview data review w = (Ok (VObj r), w) ∧
    r !! "verified" = Some (VBool true) ∧
    r !! "dateScraped" = Some (VDate (DateAt (clock w))) ∧
    r !! "productId" = Some (get data "productId") ∧
    (∀ s, get review "date" = VStr s → s ≠ "" →
          r !! "date" = Some (VDate (DateParse s))) ∧
    (get review "date" = VUndefined ∨ get review "date" = VStr "" →
     r !! "date" = Some VUndefined) ∧
    (∀ k, k ∉ ["verified"; "dateScraped"; "date"; "productId"] →
          r !! k = fields review !! k).
Proof.
  eexists. split; [apply processReview_run|].
  repeat split.
  - by rewrite lookup_insert_eq.
  - rewrite lookup_insert_ne by done. by rewrite lookup_insert_eq.
  - do 3 (rewrite lookup_insert_ne by done). by rewrite lookup_insert_eq.
  - intros s Hs Hne. do 2 (rewrite lookup_insert_ne by done).
    rewrite lookup_insert_eq, Hs. cbn.
    destruct (String.eqb_spec s ""); [done|]. done.
  - intros Hd. do 2 (rewrite lookup_insert_ne by done).
    rewrite lookup_insert_eq. by destruct Hd as [-> | ->].
  - intros k Hk. rewrite !lookup_insert_ne; [done|set_solver..].
Qed.

Lemma processReview_fields_witness :
  ∃ r, processReview (Sample.reviewed "B00X" []) (Sample.review "ann" "good")
         Sample.blank = (Ok (VObj r), Sample.blank) ∧
       r !! "verified" = Some (VBool true) ∧
       r !! "date" = Some (VDate (DateParse "2024-03-01")) ∧
       r !! "author" = Some (VStr "ann").
Proof.
  destruct (processReview_fields (Sample.reviewed "B00X" [])
              (Sample.review "ann" "good") Sample.blank)
    as (r & Hrun & Hv & _ & _ & Hdate & _ & Hrest).
  exists r. split; [exact Hrun|]. split; [exact Hv|]. split.
  - apply Hdate; [reflexivity | discriminate].
  - rewrite Hrest; [reflexivity|].
    intros Hin. vm_compute in Hin.
    repeat (apply elem_of_cons in Hin as [Hin|Hin]; [discriminate Hin|]).
    by apply elem_of_nil in Hin.
Defined.

(** C5 as stated fails for an entry whose date string is present but
    empty: the result has no parsed date. *)
Lemma processReview_empty_date :
  get Sample.undated "date" = VStr "" ∧
  ∃ r, processReview (Sample.reviewed "B00X" [Sample.undated]) Sample.undated
         Sample.blank = (Ok (VObj r), Sample.blank) ∧
       r !! "date" = Some VUndefined ∧
       r !! "date" ≠ Some (VDate (DateParse "")).
Proof.
  split; [reflexivity|]. eexists. split; [apply processReview_run|].
  split; [reflexivity|]. vm_compute. discriminate.
Qed.

End Reviews.

Section Scraper.

Variable env : Env.

(** C9: when the reviews page loads and the service answers with an empty
    list of reviews, [scrapeProductReviews] returns normally and the
    gateway is not even asked for a connection: no collection changes, no
    insert reaches the server, nothing is logged. *)
Theorem scrapeProductReviews_empty (w : World) (productUrl : string)
    (data : value) :
  loads env (reviewsUrl productUrl) = true →
  extraction env (reviewsUrl productUrl) reviewsInstruction = Some data →
  conforms reviewsSchema data = true →
  get data "reviews" = VArr [] →
  ∃ w', scrapeProductReviews env productUrl w = (Ok (), w') ∧
    collections w' = collections w ∧ writes w' = writes w ∧
    client w' = client w ∧ db w' = db w ∧ connects w' = connects w ∧
    console w' = console w.
Proof.
  intros Hl He Hc Hr. unfold scrapeProductReviews.
  rewrite run_bind, page_goto_ok by done. cbv beta iota.
  rewrite run_bind, page_waitForTimeout_run. cbv beta iota.
  rewrite run_bind, (page_extract_ok env _ _ data) by first [exact He | exact Hc].
  cbv beta iota. rewrite Hr. cbn.
  eexists. split; [reflexivity|]. done.
Qed.

(** C3: when the category page loads, the service answers with K product
    entries, and the store is there and accepts documents, the list scrape
    returns the ProductList it built and persists it as one document of
    [product_lists] (website name "Amazon", page 1, a capture timestamp)
    and the K entries, each with a capture timestamp, as documents of
    [products]; no other collection changes. *)
Theorem scrapeProductList_persists (w : World) (url : string)
    (data : value) (entries : list value) :
  loads env url = true →
  extraction env url listInstruction = Some data →
  conforms listSchema data = true →
  get data "products" = VArr entries →
  available env w →
  (∀ c doc, rejects env c doc = false) →
  ∃ productList products t w',
    scrapeProductList env url w = (Ok productList, w') ∧
    documents w' COLLECTIONS.PRODUCT_LISTS =
      documents w COLLECTIONS.PRODUCT_LISTS ++ [productList] ∧
    documents w' COLLECTIONS.PRODUCTS =
      documents w COLLECTIONS.PRODUCTS ++ products ∧
    (∀ c, c ≠ COLLECTIONS.PRODUCT_LISTS → c ≠ COLLECTIONS.PRODUCTS →
          documents w' c = documents w c) ∧
    writes w' =
      writes w ++ InsertOne COLLECTIONS.PRODUCT_LISTS productList ::
                  match products with
                  | [] => []
                  | _ => [InsertMany COLLECTIONS.PRODUCTS products]
                  end ∧
    length products = length entries ∧
    products = stamped t <$> entries ∧
    Forall (λ p, get p "dateScraped" = VDate (DateAt t)) products ∧
    get productList "products" = VArr products ∧
    get productList "websiteName" = VStr "Amazon" ∧
    get productList "page" = VNum 1 ∧
    get productList "dateScraped" = VDate (DateAt t).
Proof.
  intros Hl He Hc Hp Hav Hok. unfold scrapeProductList.
  rewrite run_bind, page_goto_ok by done. cbv beta iota.
  do 5 (rewrite run_bind;
        first [rewrite page_waitForTimeout_run | rewrite page_scrollTo_run];
        cbv beta iota).
  rewrite run_bind, (page_extract_ok env _ _ data) by first [exact He | exact Hc].
  cbv beta iota. rewrite Hp.
  rewrite run_bind, (array_map_pure _ _ _ _ (λ x, stampProduct_run x _)).
  cbv beta iota. rewrite run_bind, new_Date_run. cbv beta iota zeta.
  match goal with
  | |- context [stamped ?t0 <$> entries] => set (t := t0)
  end.
  match goal with
  | |- context [storeData env COLLECTIONS.PRODUCT_LISTS ?pl ≫= _] =>
      set (productList := pl)
  end.
  match goal with
  | |- context [mbind _ _ ?w0] => set (w3 := w0)
  end.
  destruct (storeData_ok env w3 COLLECTIONS.PRODUCT_LISTS productList)
    as (w4 & Hrun4 & (Hdb4 & _) & Hother4 & Hw4 & Hd4 & _);
    [exact Hav | intros; apply Hok |].
  rewrite run_bind, Hrun4. cbv beta iota.
  destruct (storeData_ok env w4 COLLECTIONS.PRODUCTS (VArr (stamped t <$> entries)))
    as (w5 & Hrun5 & _ & Hother5 & Hdata5);
    [by left | intros; apply Hok |].
  rewrite run_bind, Hrun5. cbv beta iota.
  exists productList, (stamped t <$> entries), t, w5.
  split; [reflexivity|].
  assert (documents w5 COLLECTIONS.PRODUCTS =
          documents w COLLECTIONS.PRODUCTS ++ (stamped t <$> entries) ∧
          writes w5 = writes w ++
            InsertOne COLLECTIONS.PRODUCT_LISTS productList ::
            match stamped t <$> entries with
            | [] => []
            | _ => [InsertMany COLLECTIONS.PRODUCTS (stamped t <$> entries)]
            end) as [Hprod Hwrites].
  { destruct entries as [|e entries']; cbn [fmap list_fmap] in *.
    - destruct Hdata5 as [Hw5 Hc5]. rewrite Hw5, Hw4. split; [|done].
      unfold documents at 1. rewrite Hc5. fold (documents w4 COLLECTIONS.PRODUCTS).
      rewrite Hother4 by done. by rewrite app_nil_r.
    - destruct Hdata5 as (Hw5 & Hd5 & _). rewrite Hw5, Hw4, Hd5.
      rewrite Hother4 by done. split; [done|]. by rewrite <- app_assoc. }
  repeat split; try done.
  - rewrite Hother5 by done. exact Hd4.
  - intros c H1 H2. rewrite Hother5, Hother4 by done. done.
  - by rewrite length_fmap.
  - apply Forall_fmap, Forall_forall. intros p _. unfold stamped, get. cbn.
    by rewrite lookup_insert_eq.
Qed.

End Scraper.

Lemma scrapeProductReviews_empty_witness :
  ∃ w', scrapeProductReviews Sample.env (Sample.productUrl "B003") Sample.blank
        = (Ok (), w') ∧
        collections w' = ∅ ∧ writes w' = [] ∧ db w' = None ∧ console w' = [].
Proof.
  destruct (scrapeProductReviews_empty Sample.env Sample.blank
              (Sample.productUrl "B003") (Sample.reviewed "B003" []))
    as (w' & Hrun & Hcoll & Hwr & _ & Hdb & _ & Hcon);
    [reflexivity..|].
  exists w'. split; [exact Hrun|]. done.
Defined.

(** ** What a run can do to the page and the console *)

Section Visits.

Variable env : Env.

Lemma visits_refl (w : World) : visits [] w w.
Proof. split; [by rewrite app_nil_r | done]. Qed.

Lemma visits_trans (a b : list string) (w1 w2 w3 : World) :
  visits a w1 w2 → visits b w2 w3 → visits (a ++ b) w1 w3.
Proof.
  intros [Ha Hc1] [Hb Hc2]. split.
  - by rewrite Hb, Ha, <- app_assoc.
  - by etrans.
Qed.

Lemma navigations_app (t1 t2 : list PageEvent) :
  navigations (t1 ++ t2) = navigations t1 ++ navigations t2.
Proof. apply omap_app. Qed.

Lemma visits_same (w w' : World) :
  trace w' = trace w → console w' = console w → visits [] w w'.
Proof. intros Ht Hc. split; [by rewrite Ht, app_nil_r | by rewrite Hc]. Qed.

Lemma always_ret {A} (a : A) : always [] (mret a).
Proof. intros w r w' [= <- <-]. apply visits_refl. Qed.

Lemma always_throw {A} (e : error) : always [] (@throw A e).
Proof. intros w r w' [= <- <-]. apply visits_refl. Qed.

Lemma always_read {A} (f : World → A) : always [] (read f).
Proof. intros w r w' [= <- <-]. apply visits_refl. Qed.

Lemma always_modify (f : World → World) :
  (∀ w, trace (f w) = trace w ∧ console w `prefix_of` console (f w)) →
  always [] (modify f).
Proof.
  intros Hf w r w' [= <- <-]. destruct (Hf w) as [Ht Hc].
  split; [by rewrite Ht, app_nil_r | done].
Qed.

(** Sequencing: what [m] visits, then nothing more. *)
Lemma always_bind {A B} (urls : list string) (m : M A) (f : A → M B) :
  always urls m → (∀ a, always [] (f a)) → always urls (m ≫= f).
Proof.
  intros Hm Hf w r w'. rewrite run_bind.
  destruct (m w) as [[a|e] w1] eqn:E.
  - intros H. rewrite <- (app_nil_r urls). eapply visits_trans; [by eapply Hm|].
    by eapply Hf.
  - intros [= <- <-]. by eapply Hm.
Qed.

Lemma always_try_catch {A} (body : M A) (handler : error → M A) :
  always [] body → (∀ e, always [] (handler e)) →
  always [] (try_catch body handler).
Proof.
  intros Hb Hh w r w'. unfold try_catch.
  destruct (body w) as [[a|e] w1] eqn:E.
  - intros [= <- <-]. by eapply Hb.
  - intros H. change (@nil string) with (@nil string ++ []).
    eapply visits_trans; [by eapply Hb | by eapply Hh].
Qed.

Lemma always_console_log (msg : string) : always [] (console_log msg).
Proof. apply always_modify. intros w. split; [done|]. by apply prefix_app_r. Qed.

Lemma always_console_error (msg : string) (e : error) :
  always [] (console_error msg e).
Proof. apply always_modify. intros w. split; [done|]. by apply prefix_app_r. Qed.

Lemma always_map_each (f : value → M value) (l : list value) :
  (∀ x, always [] (f x)) → always [] (map_each f l).
Proof.
  intros Hf. induction l as [|x l IH]; cbn [map_each].
  - apply always_ret.
  - apply always_bind; [apply Hf|]. intros y.
    apply always_bind; [apply IH|]. intros ys. apply always_ret.
Qed.

Lemma always_array_map (arr : value) (f : value → M value) :
  (∀ x, always [] (f x)) → always [] (array_map arr f).
Proof.
  intros Hf. destruct arr; cbn [array_map]; try apply always_throw.
  apply always_bind; [by apply always_map_each|]. intros. apply always_ret.
Qed.

#[local] Hint Resolve always_ret always_throw always_read always_console_log
  always_console_error : quiet.

Lemma always_connectToMongo : always [] (connectToMongo env).
Proof.
  unfold connectToMongo. apply always_bind; [auto with quiet|].
  intros [d|]; [auto with quiet|].
  apply always_try_catch.
  - apply always_bind.
    { intros w r w' [= <- <-]. by apply visits_same. }
    intros c. apply always_bind; [by apply always_modify|]. intros _.
    apply always_bind.
    { intros w r w'. unfold client_connect.
      destruct (reachable env (client_uri c)); intros [= <- <-];
        by apply visits_same. }
    intros _. apply always_bind; [auto with quiet|]. intros _.
    apply always_bind; [by apply always_modify|]. intros _. auto with quiet.
  - intros e. apply always_bind; auto with quiet.
Qed.

Lemma always_server_insert (op : WriteOp) (c : string) (docs : list value) :
  always [] (server_insert env op c docs).
Proof.
  intros w r w'. unfold server_insert.
  destruct (insert_ordered env c docs (documents w c)) as [r0 stored].
  intros [= <- <-]. by apply visits_same.
Qed.

Lemma always_storeData (c : string) (data : value) :
  always [] (storeData env c data).
Proof.
  unfold storeData. apply always_bind; [apply always_connectToMongo|].
  intros d. apply always_try_catch.
  - destruct data as [| | | | | | docs |];
      try (apply always_bind; [apply always_server_insert | auto with quiet]).
    destruct (0 <? length docs)%nat; [|auto with quiet].
    apply always_bind; [|auto with quiet].
    unfold insertMany. destruct docs; [auto with quiet|].
    apply always_server_insert.
  - intros e. apply always_bind; auto with quiet.
Qed.

Lemma always_page_goto (url : string) : always [url] (page_goto env url).
Proof.
  intros w r w'. unfold page_goto. rewrite run_bind. cbn.
  destruct (loads env url); intros [= <- <-].
  all: split; [|done].
  all: change (navigations (trace w ++ [Goto url]) = navigations (trace w) ++ [url]).
  all: apply navigations_app.
Qed.

Lemma always_record_event (e : PageEvent) :
  navigations [e] = [] → always [] (record_event e).
Proof.
  intros He w r w' [= <- <-]. split; [|done].
  change (navigations (trace w ++ [e]) = navigations (trace w) ++ []).
  by rewrite navigations_app, He.
Qed.

Lemma always_page_waitForTimeout (ms : N) : always [] (page_waitForTimeout ms).
Proof.
  unfold page_waitForTimeout.
  apply always_bind; [by apply always_record_event|]. intros _.
  by apply always_modify.
Qed.

Lemma always_page_scrollTo (num den : N) : always [] (page_scrollTo num den).
Proof. by apply always_record_event. Qed.

Lemma always_page_extract (instruction : string) (shape : schema) :
  always [] (page_extract env instruction shape).
Proof.
  unfold page_extract.
  apply always_bind; [by apply always_record_event|]. intros _.
  apply always_bind; [auto with quiet|]. intros url.
  destruct (extraction env url instruction) as [data|]; [|auto with quiet].
  destruct (conforms shape data); auto with quiet.
Qed.

#[local] Hint Resolve always_page_waitForTimeout always_page_scrollTo
  always_page_extract always_storeData : quiet.

Lemma always_scrapeProductDetails (productUrl : string) :
  always [productUrl] (scrapeProductDetails env productUrl).
Proof.
  unfold scrapeProductDetails.
  apply always_bind; [apply always_page_goto|]. intros _.
  do 5 (apply always_bind; [auto with quiet|]; intros _).
  apply always_bind; [auto with quiet|]. intros product.
  apply always_bind; [apply always_read|]. intros now.
  apply always_bind; auto with quiet.
Qed.

Lemma always_scrapeProductReviews (productUrl : string) :
  always [reviewsUrl productUrl] (scrapeProductReviews env productUrl).
Proof.
  unfold scrapeProductReviews.
  apply always_bind; [apply always_page_goto|]. intros _.
  apply always_bind; [auto with quiet|]. intros _.
  apply always_bind; [auto with quiet|]. intros data.
  apply always_bind.
  { apply always_array_map. intros review.
    apply always_bind; [apply always_read|]. intros. apply always_ret. }
  intros reviews. destruct (0 <? array_length reviews)%nat; [|auto with quiet].
  apply always_bind; auto with quiet.
Qed.

End Visits.

(** ** The product loop of [main] *)
Section Orchestrator.

Variable env : Env.

Lemma scrapeOne_visits (product : value) (w w' : World) (r : result ()) :
  scrapeOne env product w = (r, w') →
  ∃ detailed, visits (item_visits product detailed) w w' ∧
              (details_total env product → detailed = true).
Proof.
  unfold scrapeOne. rewrite run_bind. fold (url_of product).
  destruct (scrapeProductDetails env (url_of product) w) as [[dp|e] w1] eqn:Ed.
  - rewrite run_bind, console_log_run. cbv beta iota.
    rewrite run_bind, console_log_run. cbv beta iota.
    intros Hrest. exists true. split; [|done].
    pose proof (always_scrapeProductDetails env _ _ _ _ Ed) as H1.
    pose proof (always_bind _ _ _
                  (always_scrapeProductReviews env (url_of product))
                  (λ _, always_page_waitForTimeout 2000) _ _ _ Hrest) as H3.
    apply (visits_trans [url_of product] [reviewsUrl (url_of product)] _ _ _ H1).
    refine (visits_trans [] _ _ _ _ _ H3).
    split; [by rewrite app_nil_r|]. cbn.
    rewrite <- app_assoc. by apply prefix_app_r.
  - intros [= <- <-]. exists false. split.
    + by eapply always_scrapeProductDetails.
    + intros Htot. destruct (Htot w) as (dp & w2 & H2). congruence.
Qed.

(** One iteration never raises. *)
Lemma scrapeEntry_run (total index : nat) (product : value) (w : World) :
  ∃ w' detailed logs,
    scrapeEntry env total index product w = (Ok (), w') ∧
    visits (item_visits product detailed) w w' ∧
    console w' = console w ++ Log (startLine total index product) :: logs ∧
    (details_total env product → detailed = true) ∧
    (∀ e, (scrapeOne env product
             (console_log (startLine total index product) w).2).1 = Throw e →
          ∃ l, console w' = l ++ [LogError (errorLine product) e]).
Proof.
  unfold scrapeEntry. rewrite run_bind, console_log_run. cbv beta iota.
  set (w0 := with_console _ w). unfold try_catch.
  destruct (scrapeOne env product w0) as [[[]|e] w1] eqn:E.
  - destruct (scrapeOne_visits _ _ _ _ E) as (detailed & [Hn Hc] & Htot).
    destruct Hc as [logs Hlogs]. exists w1, detailed, logs.
    split; [done|]. split.
    { split; [exact Hn|]. rewrite Hlogs. subst w0. cbn.
      rewrite <- app_assoc. by apply prefix_app_r. }
    split; [rewrite Hlogs; subst w0; cbn; by rewrite <- app_assoc|].
    split; [done|]. intros e He.
    change ((scrapeOne env product w0).1 = Throw e) in He.
    rewrite E in He. discriminate He.
  - destruct (scrapeOne_visits _ _ _ _ E) as (detailed & [Hn Hc] & Htot).
    destruct Hc as [logs Hlogs]. rewrite console_error_run.
    eexists _, detailed, (logs ++ [LogError (errorLine product) e]).
    split; [reflexivity|]. split.
    { split; [exact Hn|]. cbn. rewrite Hlogs. subst w0. cbn.
      rewrite <- !app_assoc. by apply prefix_app_r. }
    split; [cbn; rewrite Hlogs; subst w0; cbn; by rewrite <- !app_assoc|].
    split; [done|]. intros e' He.
    change ((scrapeOne env product w0).1 = Throw e') in He.
    rewrite E in He. injection He as <-. by eexists.
Qed.

(** The loop runs every entry: it never raises, each entry's start line
    is logged, and its page is opened. *)
Lemma for_entries_run (total index : nat) (items : list value) (w : World) :
  ∃ w' detailed logs,
    for_entries (scrapeEntry env total) index items w = (Ok (), w') ∧
    length detailed = length items ∧
    visits (concat (zip_with item_visits items detailed)) w w' ∧
    console w' = console w ++ logs ∧
    (∀ j q, items !! j = Some q →
            Log (startLine total (index + j) q) ∈ logs) ∧
    ((∀ p, p ∈ items → details_total env p) →
     detailed = replicate (length items) true).
Proof.
  revert index w. induction items as [|p items IH]; intros index w.
  - exists w, [], []. split; [done|]. split; [done|].
    split; [apply visits_refl|]. split; [by rewrite app_nil_r|].
    split; [intros j q Hj; by rewrite lookup_nil in Hj | done].
  - cbn [for_entries]. rewrite run_bind.
    destruct (scrapeEntry_run total index p w)
      as (w1 & d & logs1 & Hrun & Hv & Hc & Hd & _).
    rewrite Hrun.
    destruct (IH (S index) w1)
      as (w2 & ds & logs2 & Hrun2 & Hlen & Hv2 & Hc2 & Hlog2 & Hds).
    exists w2, (d :: ds), (Log (startLine total index p) :: logs1 ++ logs2).
    split; [done|]. split; [cbn; by rewrite Hlen|].
    split; [cbn [zip_with concat]; by eapply visits_trans|].
    split; [rewrite Hc2, Hc, <- app_assoc; done|].
    split.
    + intros [|j] q Hj; cbn in Hj.
      * injection Hj as <-. rewrite Nat.add_0_r. by left.
      * right. apply elem_of_app. right.
        replace (index + S j) with (S index + j) by lia. by apply Hlog2.
    + intros Hall. cbn. rewrite Hd, Hds; [done| |].
      * intros q Hq. apply Hall. by right.
      * apply Hall. by left.
Qed.

Lemma for_entries_app (total index : nat) (l1 l2 : list value) (w : World) :
  for_entries (scrapeEntry env total) index (l1 ++ l2) w =
  for_entries (scrapeEntry env total) (index + length l1) l2
    (for_entries (scrapeEntry env total) index l1 w).2.
Proof.
  revert index w. induction l1 as [|p l1 IH]; intros index w.
  - cbn. by rewrite Nat.add_0_r.
  - cbn [for_entries app length]. rewrite !run_bind.
    destruct (scrapeEntry_run total index p w) as (w1 & ? & ? & -> & _).
    rewrite IH. f_equal. lia.
Qed.

Lemma item_visits_all (items : list value) :
  concat (zip_with item_visits items (replicate (length items) true)) =
  concat ((λ p, [url_of p; reviewsUrl (url_of p)]) <$> items).
Proof. induction items as [|p items IH]; [done|]. cbn. by rewrite IH. Qed.

Lemma item_visits_elem (items : list value) (detailed : list bool)
    (j : nat) (q : value) :
  length detailed = length items → items !! j = Some q →
  url_of q ∈ concat (zip_with item_visits items detailed).
Proof.
  revert detailed j. induction items as [|p items IH];
    intros [|d ds] [|j] Hlen Hj; try done; cbn in *.
  - injection Hj as ->. by left.
  - right. apply elem_of_app. right. eapply IH; [lia | done].
Qed.

(** With the store there and accepting documents, a served product page
    is scraped successfully from every state. *)
Lemma served_details_total (product : value) :
  reachable env (MONGO_URI env) = true →
  (∀ c doc, rejects env c doc = false) →
  detail_served env product → details_total env product.
Proof.
  intros Hup Hok (Hl & d & He & Hc) w. unfold scrapeProductDetails.
  rewrite run_bind, page_goto_ok by done. cbv beta iota.
  do 5 (rewrite run_bind;
        first [rewrite page_waitForTimeout_run | rewrite page_scrollTo_run];
        cbv beta iota).
  rewrite run_bind, (page_extract_ok env _ _ d) by first [exact He | exact Hc].
  cbv beta iota. rewrite run_bind, new_Date_run. cbv beta iota zeta.
  rewrite run_bind.
  match goal with
  | |- context [storeData env ?c ?doc ?w0] =>
      destruct (storeData_ok env w0 c doc) as (w1 & Hrun & _);
        [by right | intros; apply Hok |]
  end.
  rewrite Hrun. by eexists _, _.
Qed.

(** C7: whatever the length of the list, the loop runs over its first
    three entries (all of them when there are fewer) and never raises; it
    opens the page of each of them, in order, and then its reviews page
    unless the detail scrape failed.  When the store is there and the
    product pages are served, the pages opened are exactly the product
    page and the reviews page of each of the first three entries. *)
Theorem first_three_scraped (w : World) (productList : value)
    (products : list value) :
  get productList "products" = VArr products →
  ∃ w' detailed,
    scrapeFirstProducts env productList w = (Ok (), w') ∧
    length detailed = length (take 3 products) ∧
    length detailed = 3 `min` length products ∧
    navigations (trace w') =
      navigations (trace w) ++
      concat (zip_with item_visits (take 3 products) detailed) ∧
    (reachable env (MONGO_URI env) = true →
     (∀ c doc, rejects env c doc = false) →
     (∀ p, p ∈ take 3 products → detail_served env p) →
     navigations (trace w') =
       navigations (trace w) ++
       concat ((λ p, [url_of p; reviewsUrl (url_of p)]) <$> take 3 products)).
Proof.
  intros Hp. unfold scrapeFirstProducts. rewrite Hp. cbn [slice_first].
  destruct (for_entries_run (length (take 3 products)) 0 (take 3 products) w)
    as (w' & detailed & logs & Hrun & Hlen & [Hv _] & _ & _ & Hall).
  exists w', detailed. split; [done|]. split; [done|].
  split; [by rewrite Hlen, length_take|]. split; [done|].
  intros Hup Hok Hserved. rewrite Hv, Hall; [by rewrite item_visits_all|].
  intros p Hin. by apply served_details_total, Hserved.
Qed.

(** C8: when the scrape of the entry at position [i] raises [e], the
    iteration ends by logging [e] under the entry's name, the loop as a
    whole still returns normally, and every later entry is processed after
    that: its start line is logged and its page is opened. *)
Theorem failure_isolated (w : World) (productList : value) (i : nat)
    (p : value) (e : error) :
  let items := slice_first 3 (get productList "products") in
  let body := scrapeEntry env (length items) in
  let before := (for_entries body 0 (take i items) w).2 in
  let after := (for_entries body 0 (take (S i) items) w).2 in
  items !! i = Some p →
  (scrapeOne env p
     (console_log (startLine (length items) i p) before).2).1 = Throw e →
  ∃ w_end urls logs,
    scrapeFirstProducts env productList w = (Ok (), w_end) ∧
    (∃ l, console after = l ++ [LogError (errorLine p) e]) ∧
    navigations (trace w_end) = navigations (trace after) ++ urls ∧
    console w_end = console after ++ logs ∧
    ∀ j q, i < j → items !! j = Some q →
           url_of q ∈ urls ∧ Log (startLine (length items) j q) ∈ logs.
Proof.
  intros items body before after Hi He.
  assert (i < length items) as Hlt by (by eapply lookup_lt_Some).
  assert (scrapeFirstProducts env productList w =
          for_entries body (S i) (drop (S i) items) after) as ->.
  { change (for_entries body 0 items w =
            for_entries body (S i) (drop (S i) items) after).
    rewrite <- (take_drop (S i) items) at 1.
    unfold body. rewrite for_entries_app.
    by rewrite length_take, Nat.min_l by lia. }
  destruct (for_entries_run (length items) (S i) (drop (S i) items) after)
    as (w_end & detailed & logs & Hrun & Hlen & [Hv _] & Hc & Hlogs & _).
  exists w_end, (concat (zip_with item_visits (drop (S i) items) detailed)), logs.
  split; [exact Hrun|]. split; [|split; [done|split; [done|]]].
  - subst after. rewrite (take_S_r _ _ _ Hi).
    unfold body. rewrite for_entries_app. fold body. fold before.
    rewrite length_take, Nat.min_l by lia. cbn [Nat.add for_entries].
    rewrite run_bind.
    destruct (scrapeEntry_run (length items) i p before)
      as (w1 & ? & ? & Hrun1 & _ & _ & _ & Herr).
    unfold body. rewrite Hrun1. cbn. by apply Herr.
  - intros j q Hj Hq.
    assert (drop (S i) items !! (j - S i) = Some q) as Hq'.
    { rewrite lookup_drop. by replace (S i + (j - S i)) with j by lia. }
    split.
    + by eapply item_visits_elem.
    + replace j with (S i + (j - S i)) by lia. by apply Hlogs.
Qed.

End Orchestrator.

Lemma scrapeProductList_persists_witness :
  ∃ productList w',
    scrapeProductList Sample.env categoryUrl Sample.blank = (Ok productList, w') ∧
    length (documents w' COLLECTIONS.PRODUCT_LISTS) = 1 ∧
    length (documents w' COLLECTIONS.PRODUCTS) = 5 ∧
    get productList "websiteName" = VStr "Amazon".
Proof.
  destruct (scrapeProductList_persists Sample.env Sample.blank categoryUrl
              Sample.listing Sample.entries)
    as (pl & ps & t & w' & Hrun & Hl & Hp & _ & _ & Hlen & _ & _ & _ & Hname & _);
    [reflexivity | reflexivity | reflexivity | reflexivity
    | right; reflexivity | intros; reflexivity |].
  exists pl, w'. split; [exact Hrun|].
  rewrite Hl, Hp, !length_app, Hlen. split; [reflexivity|].
  split; [reflexivity | exact Hname].
Defined.

Lemma first_three_scraped_witness :
  ∃ w', scrapeFirstProducts Sample.env Sample.listing Sample.blank = (Ok (), w') ∧
        navigations (trace w') =
          [ "https://www.amazon.com/dp/B001";
            "https://www.amazon.com/product-reviews/B001";
            "https://www.amazon.com/dp/B002";
            "https://www.amazon.com/product-reviews/B002";
            "https://www.amazon.com/dp/B003";
            "https://www.amazon.com/product-reviews/B003" ].
Proof.
  destruct (first_three_scraped Sample.env Sample.blank Sample.listing
              Sample.entries eq_refl)
    as (w' & detailed & Hrun & _ & _ & _ & Hall).
  exists w'. split; [exact Hrun|].
  rewrite Hall; [reflexivity | reflexivity | intros; reflexivity |].
  intros p _. split; [reflexivity|]. exists Sample.detail. split; reflexivity.
Defined.

Lemma failure_isolated_witness :
  ∃ (w_end : World) (urls : list string) (logs : list LogLine),
    scrapeFirstProducts Sample.flaky Sample.listing Sample.blank = (Ok (), w_end) ∧
    Sample.productUrl "B003" ∈ urls ∧
    Log "📊 Scraping details for product 3/3: Laptop Three" ∈ logs.
Proof.
  destruct (failure_isolated Sample.flaky Sample.blank Sample.listing 1
              (Sample.entry "B002" "Laptop Two" "$1,234.56")
              (NavigationError (Sample.productUrl "B002")))
    as (w_end & urls & logs & Hrun & _ & _ & _ & Hlater);
    [reflexivity | vm_compute; reflexivity |].
  exists w_end, urls, logs. split; [exact Hrun|].
  exact (Hlater 2 (Sample.entry "B003" "Laptop Three" "$300.00")
           ltac:(lia) eq_refl).
Defined.

(** ** [query.ts]: the price range analysis *)

(** The server refuses the pipeline while parsing it, whatever is stored:
    [find: "$"] is an operand that starts with [$], hence a field path, and
    its name is empty. *)
Lemma priceRangePipeline_rejected (docs : list value) :
  Aggregation.aggregate priceRangePipeline docs =
  Throw (AggregationError 16872 "'$' by itself is not a valid FieldPath").
Proof. reflexivity. Qed.

(** C6, where the code departs from it: over the stored prices [$19.99]
    and [$1,234.56] the price range analysis returns no minimum, maximum or
    average; the server refuses the pipeline, and [aggregateData] logs the
    error and raises it again. *)
Theorem priceRangeAnalysis_fails :
  (priceRangeAnalysis Sample.env Sample.priced).1 =
    Throw (AggregationError 16872 "'$' by itself is not a valid FieldPath")
  ∧ console (priceRangeAnalysis Sample.env Sample.priced).2 =
      [ Log "Connected to MongoDB";
        LogError "Error aggregating data in products:"
          (AggregationError 16872 "'$' by itself is not a valid FieldPath") ].
Proof. split; vm_compute; reflexivity. Qed.

(** With the dollar sign written as a literal the same stages compute, on
    doubles, minimum 19.99, maximum 1234.56 and average 627.275. *)
Lemma literalPipeline_statistics :
  Aggregation.aggregate Sample.literalPipeline
    (documents Sample.priced COLLECTIONS.PRODUCTS) =
  Ok [ Sample.obj [ ("_id", VNull);
                    ("avgPrice", VNum 627.275);
                    ("minPrice", VNum 19.99);
                    ("maxPrice", VNum 1234.56) ] ].
Proof. vm_compute. reflexivity. Qed.

(** ** The whole of [main] on the sample catalogue

    Five products are listed; the pages opened are the category page and
    then the product and reviews pages of the first three.  The store ends
    with one list, five listed and three detailed products, and the four
    reviews of the first two products (the third has none); the connection
    is closed at the end. *)
Example main_on_sample :
  let run := main Sample.env (mret ()) Sample.blank in
  run.1 = Ok () ∧
  navigations (trace run.2) =
    [ "https://www.amazon.com/s?k=laptops";
      "https://www.amazon.com/dp/B001";
      "https://www.amazon.com/product-reviews/B001";
      "https://www.amazon.com/dp/B002";
      "https://www.amazon.com/product-reviews/B002";
      "https://www.amazon.com/dp/B003";
      "https://www.amazon.com/product-reviews/B003" ] ∧
  length (documents run.2 COLLECTIONS.PRODUCT_LISTS) = 1 ∧
  length (documents run.2 COLLECTIONS.PRODUCTS) = 8 ∧
  length (documents run.2 COLLECTIONS.REVIEWS) = 4 ∧
  connects run.2 = 1 ∧
  db run.2 = None.
Proof. vm_compute. done. Qed.

(** The same run when the page of the second product does not load: the
    failure is logged and the third product is still scraped. *)
Example main_on_flaky_sample :
  let run := main Sample.flaky (mret ()) Sample.blank in
  run.1 = Ok () ∧
  navigations (trace run.2) =
    [ "https://www.amazon.com/s?k=laptops";
      "https://www.amazon.com/dp/B001";
      "https://www.amazon.com/product-reviews/B001";
      "https://www.amazon.com/dp/B002";
      "https://www.amazon.com/dp/B003";
      "https://www.amazon.com/product-reviews/B003" ] ∧
  LogError "❌ Error scraping product Laptop Two:"
    (NavigationError "https://www.amazon.com/dp/B002") ∈ console run.2 ∧
  length (documents run.2 COLLECTIONS.PRODUCTS) = 7.
Proof.
  vm_compute. repeat split.
  do 12 apply list_elem_of_further. apply list_elem_of_here.
Qed.

(** ** The records of the sample run have the shapes of [schemas.ts] *)
Example sample_list_conforms :
  let run := scrapeProductList Sample.env categoryUrl Sample.blank in
  ∃ productList, run.1 = Ok productList ∧
                 conforms ProductListSchema productList = true.
Proof. eexists. split; vm_compute; reflexivity. Qed.

Example sample_reviews_conform :
  let data := Sample.reviewed "B00X" [Sample.review "ann" "good"; Sample.undated] in
  forallb (λ review, conforms ReviewSchema (processed 0 data review))
    [Sample.review "ann" "good"; Sample.undated] = true.
Proof. vm_compute. reflexivity. Qed.

(* ================================================================== *)
(** * Further properties of the gateway, the scrapes and [main] *)

(** ** Relations every run respects

    [R] is transitive, holds between worlds with the same gateway state, and
    is respected by [connectToMongo]; then it is respected by everything
    built from the page, the console and the gateway, given that the inserts
    a function makes respect it. *)
Section Preserved.

Variable env : Env.
Variable R : World → World → Prop.
Hypothesis R_trans : ∀ w1 w2 w3, R w1 w2 → R w2 w3 → R w1 w3.
Hypothesis R_same : ∀ w w', same_gateway w w' → R w w'.
Hypothesis R_connect : preserves R (connectToMongo env).

Lemma same_gateway_refl (w : World) : same_gateway w w.
Proof. by repeat split. Qed.

Lemma preserves_ret {A} (a : A) : preserves R (mret a).
Proof using R_same. intros w r w' [= <- <-]. apply R_same, same_gateway_refl. Qed.

Lemma preserves_throw {A} (e : error) : preserves R (@throw A e).
Proof using R_same. intros w r w' [= <- <-]. apply R_same, same_gateway_refl. Qed.

Lemma preserves_read {A} (f : World → A) : preserves R (read f).
Proof using R_same. intros w r w' [= <- <-]. apply R_same, same_gateway_refl. Qed.

Lemma preserves_modify (f : World → World) :
  (∀ w, same_gateway w (f w)) → preserves R (modify f).
Proof using R_same. intros Hf w r w' [= <- <-]. apply R_same, Hf. Qed.

Lemma preserves_bind {A B} (m : M A) (f : A → M B) :
  preserves R m → (∀ a, preserves R (f a)) → preserves R (m ≫= f).
Proof using R_trans.
  intros Hm Hf w r w'. rewrite run_bind.
  destruct (m w) as [[a|e] w1] eqn:E.
  - intros H. eapply R_trans; [by eapply Hm | by eapply Hf].
  - intros [= <- <-]. by eapply Hm.
Qed.

Lemma preserves_try_catch {A} (body : M A) (handler : error → M A) :
  preserves R body → (∀ e, preserves R (handler e)) →
  preserves R (try_catch body handler).
Proof using R_trans.
  intros Hb Hh w r w'. unfold try_catch.
  destruct (body w) as [[a|e] w1] eqn:E.
  - intros [= <- <-]. by eapply Hb.
  - intros H. eapply R_trans; [by eapply Hb | by eapply Hh].
Qed.

Lemma preserves_try_finally {A} (body : M A) (cleanup : M unit) :
  preserves R body → preserves R cleanup →
  preserves R (try_finally body cleanup).
Proof using R_trans.
  intros Hb Hc w r w'. unfold try_finally.
  destruct (body w) as [r1 w1] eqn:E.
  destruct (cleanup w1) as [[[]|e] w2] eqn:E2; intros [= <- <-];
    (eapply R_trans; [by eapply Hb | by eapply Hc]).
Qed.

Lemma preserves_console_log (msg : string) : preserves R (console_log msg).
Proof using R_same. by apply preserves_modify. Qed.

Lemma preserves_console_error (msg : string) (e : error) :
  preserves R (console_error msg e).
Proof using R_same. by apply preserves_modify. Qed.

Lemma preserves_record_event (e : PageEvent) : preserves R (record_event e).
Proof using R_same. by apply preserves_modify. Qed.

Lemma preserves_page_goto (url : string) : preserves R (page_goto env url).
Proof using R_same R_trans.
  unfold page_goto. apply preserves_bind; [apply preserves_record_event|].
  intros _. destruct (loads env url);
    [by apply preserves_modify | apply preserves_throw].
Qed.

Lemma preserves_page_waitForTimeout (ms : N) :
  preserves R (page_waitForTimeout ms).
Proof using R_same R_trans.
  unfold page_waitForTimeout.
  apply preserves_bind; [apply preserves_record_event|]. intros _.
  by apply preserves_modify.
Qed.

Lemma preserves_page_scrollTo (num den : N) : preserves R (page_scrollTo num den).
Proof using R_same. apply preserves_record_event. Qed.

Lemma preserves_page_extract (instruction : string) (shape : schema) :
  preserves R (page_extract env instruction shape).
Proof using R_same R_trans.
  unfold page_extract.
  apply preserves_bind; [apply preserves_record_event|]. intros _.
  apply preserves_bind; [apply preserves_read|]. intros url.
  destruct (extraction env url instruction) as [data|]; [|apply preserves_throw].
  destruct (conforms shape data); [apply preserves_ret | apply preserves_throw].
Qed.

Lemma preserves_map_each (f : value → M value) (l : list value) :
  (∀ x, preserves R (f x)) → preserves R (map_each f l).
Proof using R_same R_trans.
  intros Hf. induction l as [|x l IH]; cbn [map_each].
  - apply preserves_ret.
  - apply preserves_bind; [apply Hf|]. intros y.
    apply preserves_bind; [apply IH|]. intros ys. apply preserves_ret.
Qed.

Lemma preserves_array_map (arr : value) (f : value → M value) :
  (∀ x, preserves R (f x)) → preserves R (array_map arr f).
Proof using R_same R_trans.
  intros Hf. destruct arr; cbn [array_map]; try apply preserves_throw.
  apply preserves_bind; [by apply preserves_map_each|].
  intros. apply preserves_ret.
Qed.

Lemma preserves_storeData (c : string) (data : value) :
  (∀ op docs, preserves R (server_insert env op c docs)) →
  preserves R (storeData env c data).
Proof using All.
  intros Hins. unfold storeData. apply preserves_bind; [apply R_connect|].
  intros d. apply preserves_try_catch.
  - destruct data as [| | | | | | docs |];
      try (unfold insertOne; apply preserves_bind;
           [apply Hins | intros; apply preserves_console_log]).
    destruct (0 <? length docs)%nat; [|apply preserves_ret].
    apply preserves_bind; [|intros; apply preserves_console_log].
    unfold insertMany. destruct docs; [apply preserves_throw | apply Hins].
  - intros e. apply preserves_bind;
      [apply preserves_console_error | intros; apply preserves_throw].
Qed.



Lemma preserves_scrapeProductList (url : string) :
  (∀ op docs, preserves R (server_insert env op COLLECTIONS.PRODUCT_LISTS docs)) →
  (∀ op docs, preserves R (server_insert env op COLLECTIONS.PRODUCTS docs)) →
  preserves R (scrapeProductList env url).
Proof using All.
  intros H1 H2. unfold scrapeProductList.
  apply preserves_bind; [apply preserves_page_goto|]. intros _.
  do 5 (apply preserves_bind;
        [first [apply preserves_page_waitForTimeout | apply preserves_page_scrollTo]|];
        intros _).
  apply preserves_bind; [apply preserves_page_extract|]. intros data.
  apply preserves_bind.
  { apply preserves_array_map. intros x.
    apply preserves_bind; [apply preserves_read | intros; apply preserves_ret]. }
  intros products. apply preserves_bind; [apply preserves_read|]. intros now.
  apply preserves_bind; [by apply preserves_storeData|]. intros _.
  apply preserves_bind; [by apply preserves_storeData|]. intros _.
  apply preserves_ret.
Qed.

Lemma preserves_scrapeProductDetails (url : string) :
  (∀ op docs, preserves R (server_insert env op COLLECTIONS.PRODUCTS docs)) →
  preserves R (scrapeProductDetails env url).
Proof using All.
  intros H. unfold scrapeProductDetails.
  apply preserves_bind; [apply preserves_page_goto|]. intros _.
  do 5 (apply preserves_bind;
        [first [apply preserves_page_waitForTimeout | apply preserves_page_scrollTo]|];
        intros _).
  apply preserves_bind; [apply preserves_page_extract|]. intros product.
  apply preserves_bind; [apply preserves_read|]. intros now.
  apply preserves_bind; [by apply preserves_storeData|]. intros _.
  apply preserves_ret.
Qed.

Lemma preserves_scrapeProductReviews (url : string) :
  (∀ op docs, preserves R (server_insert env op COLLECTIONS.REVIEWS docs)) →
  preserves R (scrapeProductReviews env url).
Proof using All.
  intros H. unfold scrapeProductReviews.
  apply preserves_bind; [apply preserves_page_goto|]. intros _.
  apply preserves_bind; [apply preserves_page_waitForTimeout|]. intros _.
  apply preserves_bind; [apply preserves_page_extract|]. intros data.
  apply preserves_bind.
  { apply preserves_array_map. intros x.
    apply preserves_bind; [apply preserves_read | intros; apply preserves_ret]. }
  intros reviews. destruct (0 <? array_length reviews)%nat; [|apply preserves_ret].
  apply preserves_bind; [by apply preserves_storeData|]. intros _.
  apply preserves_console_log.
Qed.

Lemma preserves_scrapeOne (product : value) :
  (∀ op docs, preserves R (server_insert env op COLLECTIONS.PRODUCTS docs)) →
  (∀ op docs, preserves R (server_insert env op COLLECTIONS.REVIEWS docs)) →
  preserves R (scrapeOne env product).
Proof using All.
  intros H1 H2. unfold scrapeOne.
  apply preserves_bind; [by apply preserves_scrapeProductDetails|]. intros dp.
  do 2 (apply preserves_bind; [apply preserves_console_log|]; intros _).
  apply preserves_bind; [by apply preserves_scrapeProductReviews|]. intros _.
  apply preserves_page_waitForTimeout.
Qed.

Lemma preserves_for_entries (body : nat → value → M unit) (index : nat)
    (l : list value) :
  (∀ i x, preserves R (body i x)) → preserves R (for_entries body index l).
Proof using R_same R_trans.
  intros Hb. revert index. induction l as [|x l IH]; intros index;
    cbn [for_entries]; [apply preserves_ret|].
  apply preserves_bind; [apply Hb | intros; apply IH].
Qed.

Lemma preserves_scrapeFirstProducts (productList : value) :
  (∀ op docs, preserves R (server_insert env op COLLECTIONS.PRODUCTS docs)) →
  (∀ op docs, preserves R (server_insert env op COLLECTIONS.REVIEWS docs)) →
  preserves R (scrapeFirstProducts env productList).
Proof using All.
  intros H1 H2. unfold scrapeFirstProducts. cbv zeta.
  apply preserves_for_entries. intros i p.
  unfold scrapeEntry. apply preserves_bind; [apply preserves_console_log|].
  intros _. apply preserves_try_catch; [by apply preserves_scrapeOne|].
  intros e. apply preserves_console_error.
Qed.

Lemma preserves_main (report : M unit) :
  (∀ op c docs, preserves R (server_insert env op c docs)) →
  preserves R closeMongo →
  preserves R report →
  preserves R (main env report).
Proof using All.
  intros Hins Hclose Hreport. unfold main.
  apply preserves_try_finally; [|done].
  apply preserves_try_catch; [|intros; apply preserves_console_error].
  apply preserves_bind; [apply R_connect|]. intros _.
  apply preserves_bind; [apply preserves_console_log|]. intros _.
  apply preserves_bind; [by apply preserves_scrapeProductList|]. intros pl.
  apply preserves_bind; [apply preserves_console_log|]. intros _.
  apply preserves_bind; [by apply preserves_scrapeFirstProducts|]. intros _.
  apply preserves_bind; [done|]. intros _. apply preserves_console_log.
Qed.

End Preserved.

(** ** The gateway: closing, failing, reconnecting *)
Section GatewayEdges.

Variable env : Env.

Lemma closeMongo_run (w : World) :
  closeMongo w =
  (Ok (),
   match client w with
   | Some _ =>
       with_db None
         (with_client None
            (with_console (console w ++ [Log "MongoDB connection closed"]) w))
   | None => w
   end).
Proof.
  unfold closeMongo, read, client_close, console_log, modify, mbind, M_bind,
    mret, M_ret.
  by destruct (client w).
Qed.

(** X1: [closeMongo] is safe on a closed gateway: with no client it changes
    nothing and logs nothing, closing twice is closing once, and after it no
    client is held. *)
Theorem closeMongo_idempotent (w : World) :
  (client w = None → closeMongo w = (Ok (), w))
  ∧ (closeMongo;; closeMongo) w = closeMongo w
  ∧ (closeMongo w).1 = Ok ()
  ∧ client (closeMongo w).2 = None.
Proof.
  rewrite run_bind, !closeMongo_run.
  destruct (client w) as [c|] eqn:E; cbn; rewrite ?closeMongo_run, ?E; done.
Qed.

Lemma closeMongo_idempotent_witness :
  closeMongo Sample.blank = (Ok (), Sample.blank).
Proof. exact (proj1 (closeMongo_idempotent Sample.blank) eq_refl). Defined.

Lemma linked_trans (w1 w2 w3 : World) :
  keeps linked w1 w2 → keeps linked w2 w3 → keeps linked w1 w3.
Proof. unfold keeps. auto. Qed.

Lemma linked_same (w w' : World) : same_gateway w w' → keeps linked w w'.
Proof.
  intros (Hc & Hd & Hn & _) [H1 H2]. split.
  - intros d. rewrite Hd, Hc. apply H1.
  - intros c. rewrite Hc, Hn. apply H2.
Qed.

Lemma linked_connect : preserves (keeps linked) (connectToMongo env).
Proof.
  intros w r w'. unfold connectToMongo, read. rewrite run_bind. cbn.
  destruct (db w) as [d|] eqn:Hdb; [by intros [= <- <-] H|].
  unfold try_catch, new_MongoClient, client_connect. rewrite !run_bind. cbn.
  destruct (reachable env (MONGO_URI env)); cbn; intros [= <- <-] [H1 H2];
    split; cbn.
  - by intros d [= <-].
  - intros c [= <-]. cbn. lia.
  - intros d. by rewrite Hdb.
  - intros c [= <-]. cbn. lia.
Qed.

Lemma linked_insert (op : WriteOp) (c : string) (docs : list value) :
  preserves (keeps linked) (server_insert env op c docs).
Proof.
  intros w r w'. unfold server_insert.
  destruct (insert_ordered env c docs (documents w c)) as [r0 stored].
  intros [= <- <-] [H1 H2]. by split.
Qed.

Lemma linked_close : preserves (keeps linked) closeMongo.
Proof.
  intros w r w'. rewrite closeMongo_run.
  destruct (client w) as [c|] eqn:E; intros [= <- <-]; [|by intros H].
  intros _. split; cbn; done.
Qed.


(** X3: closing and connecting again does not give the old handle back: a
    new client is built, its database handle differs from the one held
    before, and the server sees one more session. *)
Theorem reconnect_after_close (w : World) (h : Db) :
  linked w → db w = Some h → reachable env (MONGO_URI env) = true →
  ∃ h' w', (closeMongo;; connectToMongo env) w = (Ok h', w') ∧
           h' ≠ h ∧
           client_id (db_client h') = clients_made w ∧
           connects w' = S (connects w) ∧
           db w' = Some h'.
Proof.
  intros [H1 H2] Hdb Hup.
  pose proof (H1 h Hdb) as Hc. pose proof (H2 _ Hc) as Hid.
  rewrite run_bind, closeMongo_run, Hc.
  unfold connectToMongo, read. rewrite run_bind. cbn.
  unfold try_catch, new_MongoClient, client_connect. rewrite !run_bind. cbn.
  rewrite Hup. cbn. eexists _, _. split; [reflexivity|]. cbn.
  split; [|done]. intros <-. cbn in Hid. lia.
Qed.

(** The run of a connection attempt that the server does not answer: the
    client that was built stays in the module variable. *)
Lemma connectToMongo_down (w : World) :
  db w = None → reachable env (MONGO_URI env) = false →
  connectToMongo env w =
  (Throw (ConnectionError (MONGO_URI env)),
   with_console
     (console w ++
      [LogError "Error connecting to MongoDB:" (ConnectionError (MONGO_URI env))])
     (with_client
        (Some {| client_id := clients_made w; client_uri := MONGO_URI env |})
        (with_clients_made (S (clients_made w)) w))).
Proof.
  intros Hdb Hdown. unfold connectToMongo, read. rewrite run_bind. cbn.
  rewrite Hdb. unfold try_catch, new_MongoClient, client_connect.
  rewrite !run_bind. cbn. by rewrite Hdown.
Qed.


(** X5: with no database to be had, [storeData], [findData] and
    [aggregateData] raise the connection error; the console gets the line of
    the failed connection and no line of their own, since they ask for the
    database before their [try]; no insert reaches the server. *)
Theorem gateway_without_database (w : World) (c : string) (data : value)
    (q : query) (pipeline : list stage) :
  db w = None → reachable env (MONGO_URI env) = false →
  let e := ConnectionError (MONGO_URI env) in
  let line := LogError "Error connecting to MongoDB:" e in
  ((storeData env c data w).1 = Throw e ∧
   console (storeData env c data w).2 = console w ++ [line] ∧
   unwritten w (storeData env c data w).2)
  ∧ ((findData env c q w).1 = Throw e ∧
     console (findData env c q w).2 = console w ++ [line])
  ∧ ((aggregateData env c pipeline w).1 = Throw e ∧
     console (aggregateData env c pipeline w).2 = console w ++ [line]).
Proof.
  intros Hdb Hdown e line.
  unfold storeData, findData, aggregateData.
  rewrite !run_bind, connectToMongo_down by done. cbn. done.
Qed.

End GatewayEdges.

Lemma reconnect_after_close_witness :
  ∃ h h' w',
    db Faulty.connected = Some h ∧
    (closeMongo;; connectToMongo Sample.env) Faulty.connected = (Ok h', w') ∧
    h' ≠ h ∧ connects w' = 2.
Proof.
  destruct (reconnect_after_close Sample.env Faulty.connected
              {| db_client := {| client_id := 0;
                                 client_uri := "mongodb://localhost:27017" |};
                 db_name := "scraper_db" |})
    as (h' & w' & Hrun & Hne & _ & Hcon & _).
  - split.
    + by intros d [= <-].
    + intros c [= <-]. vm_compute. lia.
  - reflexivity.
  - reflexivity.
  - eexists _, h', w'. split; [reflexivity|]. split; [exact Hrun|].
    split; [exact Hne | exact Hcon].
Defined.


Lemma gateway_without_database_witness :
  (storeData Faulty.offline "products" (VArr Sample.entries) Sample.blank).1 =
    Throw (ConnectionError "mongodb://localhost:27017") ∧
  writes (storeData Faulty.offline "products" (VArr Sample.entries)
            Sample.blank).2 = [].
Proof.
  destruct (gateway_without_database Faulty.offline Sample.blank "products"
              (VArr Sample.entries) [] [] eq_refl eq_refl)
    as ((Hr & _ & _ & Hw) & _).
  split; [exact Hr | exact Hw].
Defined.

(** ** The gateway: what is stored, and what is read back *)
Section Stored.

Variable env : Env.

Lemma insert_ordered_stops (c : string) (good : list value) (bad : value)
    (rest stored : list value) :
  (∀ doc, doc ∈ good → rejects env c doc = false) →
  rejects env c bad = true →
  insert_ordered env c (good ++ bad :: rest) stored =
  (Throw (WriteError c bad), stored ++ good).
Proof.
  revert stored. induction good as [|doc good IH]; intros stored Hgood Hbad; cbn.
  - by rewrite Hbad, app_nil_r.
  - rewrite Hgood by set_solver. rewrite IH by set_solver.
    by rewrite <- app_assoc.
Qed.

Lemma insert_ordered_prefix (c : string) (docs stored : list value) :
  stored `prefix_of` (insert_ordered env c docs stored).2.
Proof.
  revert stored. induction docs as [|doc docs IH]; intros stored; cbn; [done|].
  destruct (rejects env c doc); [done|].
  etrans; [|apply IH]. by apply prefix_app_r.
Qed.

Lemma nonempty_batch (collection : Collection) (docs : list value) :
  docs ≠ [] →
  (0 <? length docs)%nat = true ∧
  insertMany env collection docs =
  server_insert env (InsertMany (coll_name collection) docs)
    (coll_name collection) docs.
Proof. by destruct docs. Qed.

(** The run of [storeData] on a batch whose record [bad] is the first
    one the server refuses. *)
Lemma storeData_stops (w : World) (c : string) (good : list value)
    (bad : value) (rest : list value) :
  available env w →
  (∀ doc, doc ∈ good → rejects env c doc = false) →
  rejects env c bad = true →
  ∃ w', storeData env c (VArr (good ++ bad :: rest)) w =
        (Throw (WriteError c bad), w') ∧
        documents w' c = documents w c ++ good ∧
        (∀ c', c' ≠ c → documents w' c' = documents w c') ∧
        writes w' = writes w ++ [InsertMany c (good ++ bad :: rest)] ∧
        ∃ l, console w' =
             l ++ [LogError ("Error storing data in " +:+ c +:+ ":")
                     (WriteError c bad)].
Proof.
  intros Hav Hgood Hbad.
  destruct (connect_available env w Hav)
    as (d & w1 & Hc & _ & Hcoll & Hwr & _ & _ & _).
  assert (good ++ bad :: rest ≠ []) as Hne by (by destruct good).
  unfold storeData. rewrite run_bind, Hc. cbv beta iota zeta.
  destruct (nonempty_batch {| coll_db := d; coll_name := c |} _ Hne) as [-> Hins].
  unfold try_catch. rewrite run_bind, Hins. cbn [coll_name].
  unfold server_insert. rewrite (insert_ordered_stops c good bad rest) by done.
  rewrite run_bind, console_error_run. cbn.
  eexists. split; [reflexivity|]. cbn. split; [|split; [|split]].
  - unfold documents. cbn. by rewrite lookup_insert_eq, Hcoll.
  - intros c' Hc'. unfold documents. cbn. by rewrite lookup_insert_ne, Hcoll.
  - by rewrite Hwr.
  - by eexists.
Qed.

(** X6: a batch the server refuses half way is not undone.  When the
    records before [bad] are accepted and [bad] is refused, [storeData] logs
    the write error and raises it again, and the records before [bad] stay
    in the collection; those after it are never stored. *)
Theorem storeData_rejected (w : World) (c : string) (good : list value)
    (bad : value) (rest : list value) :
  available env w →
  (∀ doc, doc ∈ good → rejects env c doc = false) →
  rejects env c bad = true →
  ∃ w', storeData env c (VArr (good ++ bad :: rest)) w =
        (Throw (WriteError c bad), w') ∧
        documents w' c = documents w c ++ good ∧
        (∀ c', c' ≠ c → documents w' c' = documents w c') ∧
        writes w' = writes w ++ [InsertMany c (good ++ bad :: rest)] ∧
        ∃ l, console w' =
             l ++ [LogError ("Error storing data in " +:+ c +:+ ":")
                     (WriteError c bad)].
Proof. apply storeData_stops. Qed.








End Stored.

Lemma storeData_rejected_witness :
  ∃ w', storeData Faulty.picky "products" (VArr Sample.entries) Sample.blank =
        (Throw (WriteError "products"
                  (Sample.entry "B003" "Laptop Three" "$300.00")), w') ∧
        length (documents w' "products") = 2.
Proof.
  destruct (storeData_rejected Faulty.picky Sample.blank "products"
              [ Sample.entry "B001" "Laptop One" "$19.99";
                Sample.entry "B002" "Laptop Two" "$1,234.56" ]
              (Sample.entry "B003" "Laptop Three" "$300.00")
              [ Sample.entry "B004" "Laptop Four" "$450.00";
                Sample.entry "B005" "Laptop Five" "$999.00" ])
    as (w' & Hrun & Hdocs & _).
  - right. reflexivity.
  - intros doc Hin.
    apply elem_of_cons in Hin as [->|Hin]; [reflexivity|].
    apply elem_of_cons in Hin as [->|Hin]; [reflexivity|].
    by apply elem_of_nil in Hin.
  - reflexivity.
  - exists w'. split; [exact Hrun|]. by rewrite Hdocs.
Defined.


(** ** What no run does to the store and to the session *)
Section Invariants.

Variable env : Env.

Lemma append_only_trans (w1 w2 w3 : World) :
  append_only w1 w2 → append_only w2 w3 → append_only w1 w3.
Proof. intros H1 H2 c. etrans; [apply H1 | apply H2]. Qed.

Lemma append_only_same (w w' : World) : same_gateway w w' → append_only w w'.
Proof. intros (_ & _ & _ & _ & Hc & _) c. unfold documents. by rewrite Hc. Qed.

Lemma append_only_connect : preserves append_only (connectToMongo env).
Proof.
  intros w r w' H c. apply (connect_stores_nothing env) in H as [Hc _].
  unfold documents. by rewrite Hc.
Qed.

Lemma append_only_insert (op : WriteOp) (c : string) (docs : list value) :
  preserves append_only (server_insert env op c docs).
Proof.
  intros w r w'. unfold server_insert.
  pose proof (insert_ordered_prefix env c docs (documents w c)) as Hp.
  destruct (insert_ordered env c docs (documents w c)) as [r0 stored].
  intros [= <- <-] c'. unfold documents at 2. cbn.
  destruct (decide (c = c')) as [<-|Hne].
  - by rewrite lookup_insert_eq.
  - by rewrite lookup_insert_ne.
Qed.

Lemma append_only_close : preserves append_only closeMongo.
Proof.
  intros w r w'. rewrite closeMongo_run.
  destruct (client w); intros [= <- <-] c; done.
Qed.

(** X9: the store is append-only.  Whatever their outcome, [storeData], the
    three scrapes, the product loop and the whole of [main] (given that what
    follows the loop is append-only too) never remove, replace or reorder a
    stored document: every collection keeps what it had as a prefix. *)
Theorem store_is_append_only :
  (∀ c data, preserves append_only (storeData env c data))
  ∧ (∀ url, preserves append_only (scrapeProductList env url))
  ∧ (∀ url, preserves append_only (scrapeProductDetails env url))
  ∧ (∀ url, preserves append_only (scrapeProductReviews env url))
  ∧ (∀ productList, preserves append_only (scrapeFirstProducts env productList))
  ∧ (∀ report, preserves append_only report →
               preserves append_only (main env report)).
Proof.
  pose proof append_only_trans as Ht. pose proof append_only_same as Hs.
  pose proof append_only_connect as Hc. pose proof append_only_insert as Hi.
  repeat split; intros.
  - by apply (preserves_storeData env _ Ht Hs Hc).
  - by apply (preserves_scrapeProductList env _ Ht Hs Hc).
  - by apply (preserves_scrapeProductDetails env _ Ht Hs Hc).
  - by apply (preserves_scrapeProductReviews env _ Ht Hs Hc).
  - by apply (preserves_scrapeFirstProducts env _ Ht Hs Hc).
  - apply (preserves_main env _ Ht Hs Hc); [done | apply append_only_close | done].
Qed.

Lemma touches_only_trans (names : list string) (w1 w2 w3 : World) :
  touches_only names w1 w2 → touches_only names w2 w3 → touches_only names w1 w3.
Proof. intros H1 H2 c Hc. by rewrite H2, H1. Qed.

Lemma touches_only_same (names : list string) (w w' : World) :
  same_gateway w w' → touches_only names w w'.
Proof. intros (_ & _ & _ & _ & Hc & _) c _. unfold documents. by rewrite Hc. Qed.

Lemma touches_only_connect (names : list string) :
  preserves (touches_only names) (connectToMongo env).
Proof.
  intros w r w' H c _. apply (connect_stores_nothing env) in H as [Hc _].
  unfold documents. by rewrite Hc.
Qed.

Lemma touches_only_insert (names : list string) (op : WriteOp) (c : string)
    (docs : list value) :
  c ∈ names → preserves (touches_only names) (server_insert env op c docs).
Proof.
  intros Hin w r w'. unfold server_insert.
  destruct (insert_ordered env c docs (documents w c)) as [r0 stored].
  intros [= <- <-] c' Hc'. unfold documents at 1. cbn.
  rewrite lookup_insert_ne; [done|]. by intros ->.
Qed.


Lemma session_step_trans (w1 w2 w3 : World) :
  session_step w1 w2 → session_step w2 w3 → session_step w1 w3.
Proof.
  intros [[Hd1 Hc1]|(Hn1 & Hs1 & Hc1)] [[Hd2 Hc2]|(Hn2 & Hs2 & Hc2)].
  - left. split; congruence.
  - right. repeat split; congruence.
  - right. repeat split; congruence.
  - rewrite Hn2 in Hs1. by destruct Hs1.
Qed.

Lemma session_step_same (w w' : World) : same_gateway w w' → session_step w w'.
Proof. intros (_ & Hd & _ & Hc & _). by left. Qed.

Lemma session_step_connect : preserves session_step (connectToMongo env).
Proof.
  intros w r w'. unfold connectToMongo, read. rewrite run_bind. cbn.
  destruct (db w) as [d|] eqn:Hdb; [intros [= <- <-]; by left|].
  unfold try_catch, new_MongoClient, client_connect. rewrite !run_bind. cbn.
  destruct (reachable env (MONGO_URI env)); cbn; intros [= <- <-].
  - right. cbn. by eauto.
  - left. by cbn.
Qed.

Lemma session_step_insert (op : WriteOp) (c : string) (docs : list value) :
  preserves session_step (server_insert env op c docs).
Proof.
  intros w r w'. unfold server_insert.
  destruct (insert_ordered env c docs (documents w c)) as [r0 stored].
  intros [= <- <-]. by left.
Qed.

(** X11: the connection is made once.  However many documents they store,
    [storeData], the scrapes and the product loop open at most one session,
    and only when no database is held: with a database held they open none
    and still hold the same database afterwards. *)
Theorem one_session_at_most :
  (∀ c data, preserves session_step (storeData env c data))
  ∧ (∀ url, preserves session_step (scrapeProductList env url))
  ∧ (∀ url, preserves session_step (scrapeProductDetails env url))
  ∧ (∀ url, preserves session_step (scrapeProductReviews env url))
  ∧ (∀ productList, preserves session_step (scrapeFirstProducts env productList))
  ∧ (∀ w w', session_step w w' →
             (connects w' ≤ S (connects w))%nat ∧
             (is_Some (db w) → db w' = db w ∧ connects w' = connects w)).
Proof.
  pose proof session_step_trans as Ht. pose proof session_step_same as Hs.
  pose proof session_step_connect as Hc. pose proof session_step_insert as Hi.
  repeat split; intros.
  - by apply (preserves_storeData env _ Ht Hs Hc).
  - by apply (preserves_scrapeProductList env _ Ht Hs Hc).
  - by apply (preserves_scrapeProductDetails env _ Ht Hs Hc).
  - by apply (preserves_scrapeProductReviews env _ Ht Hs Hc).
  - by apply (preserves_scrapeFirstProducts env _ Ht Hs Hc).
  - destruct H as [[_ ->]|(_ & _ & ->)]; lia.
  - destruct H as [[? ?]|(Hn & _)]; [done|]. rewrite Hn in H0. by destruct H0.
  - destruct H as [[? ?]|(Hn & _)]; [done|]. rewrite Hn in H0. by destruct H0.
Qed.

End Invariants.

Lemma store_is_append_only_witness :
  documents Sample.priced "products" `prefix_of`
  documents (main Sample.env (mret ()) Sample.priced).2 "products".
Proof.
  destruct (main Sample.env (mret ()) Sample.priced) as [r w'] eqn:E.
  refine (proj2 (proj2 (proj2 (proj2 (proj2 (store_is_append_only Sample.env)))))
            (mret ()) _ _ _ _ E "products").
  intros w r0 w0 [= <- <-] c. done.
Defined.

Lemma one_session_at_most_witness :
  connects (scrapeFirstProducts Sample.env Sample.listing Faulty.connected).2 = 1.
Proof.
  destruct (scrapeFirstProducts Sample.env Sample.listing Faulty.connected)
    as [r w'] eqn:E.
  pose proof (one_session_at_most Sample.env) as (_ & _ & _ & _ & Hloop & Hstep).
  destruct (Hstep _ _ (Hloop _ _ _ _ E)) as [_ Hheld].
  change (connects w' = 1).
  destruct Hheld as [_ ->]; [by eexists | reflexivity].
Defined.

(** ** The scrapes: what they store, and how they fail *)
Section ScrapeEdges.

Variable env : Env.

(** The run of a detail scrape whose page loads and is described. *)
Lemma scrapeProductDetails_run (w : World) (productUrl : string)
    (answer : value) :
  loads env productUrl = true →
  extraction env productUrl detailInstruction = Some answer →
  conforms (omit "dateScraped" ProductSchema) answer = true →
  available env w →
  (∀ doc, rejects env COLLECTIONS.PRODUCTS doc = false) →
  ∃ product w',
    scrapeProductDetails env productUrl w = (Ok product, w') ∧
    documents w' COLLECTIONS.PRODUCTS =
      documents w COLLECTIONS.PRODUCTS ++ [product] ∧
    writes w' = writes w ++ [InsertOne COLLECTIONS.PRODUCTS product] ∧
    get product "url" = VStr productUrl ∧
    get product "dateScraped" = VDate (DateAt (clock w + 4000)) ∧
    (∀ k, k ≠ "url" → k ≠ "dateScraped" → get product k = get answer k).
Proof.
  intros Hl He Hc Hav Hok. unfold scrapeProductDetails.
  rewrite run_bind, page_goto_ok by done. cbv beta iota.
  do 5 (rewrite run_bind;
        first [rewrite page_waitForTimeout_run | rewrite page_scrollTo_run];
        cbv beta iota).
  rewrite run_bind, (page_extract_ok env _ _ answer) by first [exact He | exact Hc].
  cbv beta iota. rewrite run_bind, new_Date_run. cbv beta iota zeta.
  rewrite run_bind.
  match goal with
  | |- context [storeData env ?c ?doc ?w0] =>
      destruct (storeData_ok env w0 c doc) as (w1 & Hrun & _ & _ & Hw & Hd & _);
        [exact Hav | intros; apply Hok |]
  end.
  rewrite Hrun. eexists _, w1. split; [reflexivity|].
  split; [exact Hd|]. split; [exact Hw|]. cbn.
  split; [|split].
  - rewrite lookup_insert_ne by done. by rewrite lookup_insert_eq.
  - rewrite lookup_insert_eq. cbn. do 2 f_equal. lia.
  - intros k H1 H2. rewrite !lookup_insert_ne by done. by destruct answer.
Qed.


(** X13: a reviews scrape with N > 0 reviews stores them as one batch of N
    documents in [reviews], each the processed form of the entry at its
    position, and ends by logging how many it stored for which product. *)
Theorem scrapeProductReviews_stores (w : World) (productUrl : string)
    (data : value) (reviews : list value) :
  loads env (reviewsUrl productUrl) = true →
  extraction env (reviewsUrl productUrl) reviewsInstruction = Some data →
  conforms reviewsSchema data = true →
  get data "reviews" = VArr reviews →
  reviews ≠ [] →
  available env w →
  (∀ doc, rejects env COLLECTIONS.REVIEWS doc = false) →
  ∃ w',
    let stored := processed (clock w + 2000) data <$> reviews in
    scrapeProductReviews env productUrl w = (Ok (), w') ∧
    documents w' COLLECTIONS.REVIEWS = documents w COLLECTIONS.REVIEWS ++ stored ∧
    length (documents w' COLLECTIONS.REVIEWS) =
      length (documents w COLLECTIONS.REVIEWS) + length reviews ∧
    writes w' = writes w ++ [InsertMany COLLECTIONS.REVIEWS stored] ∧
    ∃ l, console w' =
         l ++ [Log ("Stored " +:+ pretty (length reviews) +:+
                    " reviews for product " +:+
                    string_of (get data "productId"))].
Proof.
  intros Hl He Hc Hr Hne Hav Hok. unfold scrapeProductReviews.
  rewrite run_bind, page_goto_ok by done. cbv beta iota.
  rewrite run_bind, page_waitForTimeout_run. cbv beta iota.
  rewrite run_bind, (page_extract_ok env _ _ data) by first [exact He | exact Hc].
  cbv beta iota. rewrite Hr.
  rewrite run_bind, (array_map_pure _ _ _ _ (λ x, processReview_run data x _)).
  cbv beta iota. cbn [array_length clock with_trace with_clock with_location].
  rewrite length_fmap.
  destruct reviews as [|review reviews]; [done|].
  cbn [length Nat.ltb Nat.leb]. rewrite run_bind.
  match goal with
  | |- context [storeData env ?c ?doc ?w0] =>
      destruct (storeData_ok env w0 c doc) as (w1 & Hrun & _ & _ & Hdata);
        [exact Hav | intros; apply Hok |]
  end.
  rewrite Hrun. cbv beta iota. rewrite console_log_run.
  cbn [fmap list_fmap] in Hdata. destruct Hdata as (Hw & Hd & Hlen).
  eexists. cbv zeta. split; [reflexivity|]. cbn.
  split; [exact Hd|]. split; [|split; [exact Hw | by eexists]].
  change (length (documents w1 COLLECTIONS.REVIEWS) =
          length (documents w COLLECTIONS.REVIEWS) + S (length reviews)).
  rewrite Hlen. cbn. by rewrite length_fmap.
Qed.

(** A page that does not load: the attempt is recorded, the location
    stays, and the navigation error is raised. *)
Lemma page_goto_fails (url : string) (w : World) :
  loads env url = false →
  page_goto env url w =
  (Throw (NavigationError url), with_trace (trace w ++ [Goto url]) w).
Proof. intros H. unfold page_goto. rewrite run_bind. cbn. by rewrite H. Qed.

Lemma scrapeProductList_not_loading (url : string) (w : World) :
  loads env url = false →
  scrapeProductList env url w =
  (Throw (NavigationError url), with_trace (trace w ++ [Goto url]) w).
Proof.
  intros Hl. unfold scrapeProductList. by rewrite run_bind, page_goto_fails.
Qed.

(** X14: a page that does not load stops a scrape at once.  Each of the
    three scrapes raises the navigation error for the URL it went to (the
    reviews URL for reviews); all that has happened is the attempt to open
    it: the service is never asked, nothing is stored, no connection made. *)
Theorem scrape_page_not_loading (w : World) (url : string) :
  let stopped target :=
    (@Throw value (NavigationError target),
     with_trace (trace w ++ [Goto target]) w) in
  (loads env url = false →
   scrapeProductList env url w = stopped url ∧
   scrapeProductDetails env url w = stopped url)
  ∧ (loads env (reviewsUrl url) = false →
     scrapeProductReviews env url w =
     (Throw (NavigationError (reviewsUrl url)),
      with_trace (trace w ++ [Goto (reviewsUrl url)]) w)).
Proof.
  cbv zeta. split; intros Hl.
  - split; [by apply scrapeProductList_not_loading|].
    unfold scrapeProductDetails. by rewrite run_bind, page_goto_fails.
  - unfold scrapeProductReviews. by rewrite run_bind, page_goto_fails.
Qed.

(** An answer that is missing or of the wrong shape makes the extraction
    raise, after the request has been recorded. *)
Lemma page_extract_fails (instruction : string) (shape : schema) (w : World) :
  match extraction env (location w) instruction with
  | Some answer => conforms shape answer = false
  | None => True
  end →
  page_extract env instruction shape w =
  (Throw (ExtractionError instruction),
   with_trace (trace w ++ [Extract instruction]) w).
Proof.
  intros H. unfold page_extract. rewrite run_bind. cbn.
  rewrite run_bind. cbn.
  destruct (extraction env (location w) instruction); [by rewrite H | done].
Qed.

(** X15: an answer that is missing or of the wrong shape stops a scrape
    before it persists anything.  Each scrape raises the extraction error
    for its instruction and leaves the gateway exactly as it was: no
    document, no insert, no connection. *)
Theorem scrape_extraction_fails (w : World) (url : string) :
  let unanswered target instruction shape :=
    loads env target = true ∧
    match extraction env target instruction with
    | Some answer => conforms shape answer = false
    | None => True
    end in
  (unanswered url listInstruction listSchema →
   ∃ w', scrapeProductList env url w = (Throw (ExtractionError listInstruction), w')
         ∧ same_gateway w w')
  ∧ (unanswered url detailInstruction (omit "dateScraped" ProductSchema) →
     ∃ w', scrapeProductDetails env url w =
           (Throw (ExtractionError detailInstruction), w')
           ∧ same_gateway w w')
  ∧ (unanswered (reviewsUrl url) reviewsInstruction reviewsSchema →
     ∃ w', scrapeProductReviews env url w =
           (Throw (ExtractionError reviewsInstruction), w')
           ∧ same_gateway w w').
Proof.
  cbv zeta. repeat split; intros [Hl He].
  - unfold scrapeProductList.
    rewrite run_bind, page_goto_ok by done. cbv beta iota.
    do 5 (rewrite run_bind;
          first [rewrite page_waitForTimeout_run | rewrite page_scrollTo_run];
          cbv beta iota).
    rewrite run_bind, page_extract_fails by exact He. cbv beta iota.
    eexists. split; [reflexivity | by repeat split].
  - unfold scrapeProductDetails.
    rewrite run_bind, page_goto_ok by done. cbv beta iota.
    do 5 (rewrite run_bind;
          first [rewrite page_waitForTimeout_run | rewrite page_scrollTo_run];
          cbv beta iota).
    rewrite run_bind, page_extract_fails by exact He. cbv beta iota.
    eexists. split; [reflexivity | by repeat split].
  - unfold scrapeProductReviews.
    rewrite run_bind, page_goto_ok by done. cbv beta iota.
    rewrite run_bind, page_waitForTimeout_run. cbv beta iota.
    rewrite run_bind, page_extract_fails by exact He. cbv beta iota.
    eexists. split; [reflexivity | by repeat split].
Qed.

(** X16: the list scrape is not atomic.  It stores the ProductList before
    the products: when the server accepts the list and refuses the first
    product, the scrape raises the write error and the list document stays
    in [product_lists] while [products] has gained nothing. *)
Theorem scrapeProductList_half_stored (w : World) (url : string)
    (data entry : value) (entries : list value) :
  loads env url = true →
  extraction env url listInstruction = Some data →
  conforms listSchema data = true →
  get data "products" = VArr (entry :: entries) →
  available env w →
  (∀ doc, rejects env COLLECTIONS.PRODUCT_LISTS doc = false) →
  rejects env COLLECTIONS.PRODUCTS (stamped (clock w + 4000) entry) = true →
  ∃ productList w',
    scrapeProductList env url w =
      (Throw (WriteError COLLECTIONS.PRODUCTS (stamped (clock w + 4000) entry)), w') ∧
    documents w' COLLECTIONS.PRODUCT_LISTS =
      documents w COLLECTIONS.PRODUCT_LISTS ++ [productList] ∧
    get productList "websiteName" = VStr "Amazon" ∧
    documents w' COLLECTIONS.PRODUCTS = documents w COLLECTIONS.PRODUCTS.
Proof.
  intros Hl He Hc Hp Hav Hlists Hbad. unfold scrapeProductList.
  rewrite run_bind, page_goto_ok by done. cbv beta iota.
  do 5 (rewrite run_bind;
        first [rewrite page_waitForTimeout_run | rewrite page_scrollTo_run];
        cbv beta iota).
  rewrite run_bind, (page_extract_ok env _ _ data) by first [exact He | exact Hc].
  cbv beta iota. rewrite Hp.
  rewrite run_bind, (array_map_pure _ _ _ _ (λ x, stampProduct_run x _)).
  cbv beta iota. rewrite run_bind, new_Date_run. cbv beta iota zeta.
  cbn [clock with_trace with_clock with_location].
  replace (clock w + 2000 + 1000 + 1000)%N with (clock w + 4000)%N by lia.
  rewrite run_bind.
  match goal with
  | |- context [storeData env COLLECTIONS.PRODUCT_LISTS ?pl ?w0] =>
      destruct (storeData_ok env w0 COLLECTIONS.PRODUCT_LISTS pl)
        as (w1 & Hrun & (Hdb & _) & Hother & _ & Hd & _);
        [exact Hav | intros; apply Hlists |]
  end.
  rewrite Hrun. cbv beta iota. rewrite run_bind.
  cbn [fmap list_fmap].
  destruct (storeData_stops env w1 COLLECTIONS.PRODUCTS []
              (stamped (clock w + 4000) entry)
              (stamped (clock w + 4000) <$> entries))
    as (w2 & Hrun2 & Hd2 & Hother2 & _); [by left | by intros ? ?%elem_of_nil | done |].
  cbn [app] in Hrun2. rewrite Hrun2.
  eexists _, w2. split; [reflexivity|].
  split; [rewrite Hother2 by done; exact Hd|].
  split; [done|]. rewrite Hd2, app_nil_r. by apply Hother.
Qed.

End ScrapeEdges.


Lemma scrapeProductReviews_stores_witness :
  ∃ w', scrapeProductReviews Sample.env (Sample.productUrl "B001") Sample.blank =
        (Ok (), w') ∧
        length (documents w' COLLECTIONS.REVIEWS) = 2.
Proof.
  destruct (scrapeProductReviews_stores Sample.env Sample.blank
              (Sample.productUrl "B001")
              (Sample.reviewed "B00X" [Sample.review "ann" "good"; Sample.undated])
              [Sample.review "ann" "good"; Sample.undated])
    as (w' & Hrun & _ & Hlen & _);
    [reflexivity | reflexivity | reflexivity | reflexivity | done
    | right; reflexivity | intros; reflexivity |].
  exists w'. split; [exact Hrun | exact Hlen].
Defined.

Lemma scrape_page_not_loading_witness :
  scrapeProductReviews Faulty.unloadable (Sample.productUrl "B001") Sample.blank =
  (Throw (NavigationError "https://www.amazon.com/product-reviews/B001"),
   with_trace [Goto "https://www.amazon.com/product-reviews/B001"] Sample.blank).
Proof.
  exact (proj2 (scrape_page_not_loading Faulty.unloadable Sample.blank
                  (Sample.productUrl "B001")) eq_refl).
Defined.

Lemma scrape_extraction_fails_witness :
  ∃ w', scrapeProductDetails Faulty.mute (Sample.productUrl "B001") Sample.blank =
        (Throw (ExtractionError detailInstruction), w') ∧
        same_gateway Sample.blank w'.
Proof.
  apply (proj1 (proj2 (scrape_extraction_fails Faulty.mute Sample.blank
                         (Sample.productUrl "B001")))).
  split; [reflexivity | exact I].
Defined.

Lemma scrapeProductList_half_stored_witness :
  ∃ w', (scrapeProductList Faulty.no_products categoryUrl Sample.blank).2 = w' ∧
        length (documents w' COLLECTIONS.PRODUCT_LISTS) = 1 ∧
        documents w' COLLECTIONS.PRODUCTS = [].
Proof.
  destruct (scrapeProductList_half_stored Faulty.no_products Sample.blank
              categoryUrl Sample.listing
              (Sample.entry "B001" "Laptop One" "$19.99")
              [ Sample.entry "B002" "Laptop Two" "$1,234.56";
                Sample.entry "B003" "Laptop Three" "$300.00";
                Sample.entry "B004" "Laptop Four" "$450.00";
                Sample.entry "B005" "Laptop Five" "$999.00" ])
    as (pl & w' & Hrun & Hl & _ & Hp);
    [reflexivity | reflexivity | reflexivity | reflexivity | right; reflexivity
    | intros; reflexivity | reflexivity |].
  exists w'. rewrite Hrun. split; [reflexivity|].
  rewrite Hl, Hp. split; reflexivity.
Defined.

(** ** The loop and [main]: what is stored, and how [main] ends *)
Section MainEdges.

Variable env : Env.

Lemma reviews_in_place (url : string) :
  preserves (touches_only [COLLECTIONS.REVIEWS])
    (scrapeProductReviews env url;; page_waitForTimeout 2000).
Proof.
  apply preserves_bind; [apply touches_only_trans| |intros _].
  - apply (preserves_scrapeProductReviews env _ (touches_only_trans _)
             (touches_only_same _) (touches_only_connect env _)).
    intros. apply touches_only_insert. set_solver.
  - apply preserves_page_waitForTimeout;
      [apply touches_only_trans | apply touches_only_same].
Qed.

(** One loop iteration on an entry whose page is served: one document
    with the entry's URL joins [products], however the reviews scrape ends. *)
Lemma scrapeEntry_adds_product (total index : nat) (p : value)
    (w w' : World) (r : result ()) :
  reachable env (MONGO_URI env) = true →
  (∀ doc, rejects env COLLECTIONS.PRODUCTS doc = false) →
  detail_served env p →
  scrapeEntry env total index p w = (r, w') →
  ∃ product,
    documents w' COLLECTIONS.PRODUCTS =
      documents w COLLECTIONS.PRODUCTS ++ [product] ∧
    get product "url" = VStr (url_of p).
Proof.
  intros Hup Hok (Hl & d & He & Hc). unfold scrapeEntry.
  rewrite run_bind, console_log_run. cbv beta iota.
  set (w0 := with_console _ w).
  destruct (scrapeProductDetails_run env w0 (url_of p) d Hl He Hc
              (or_intror Hup) Hok)
    as (product & w1 & Hrun & Hd & _ & Hurl & _).
  unfold try_catch, scrapeOne. fold (url_of p). rewrite run_bind, Hrun.
  rewrite run_bind, console_log_run. cbv beta iota.
  rewrite run_bind, console_log_run. cbv beta iota.
  match goal with
  | |- context [(scrapeProductReviews env ?u;; page_waitForTimeout 2000) ?w2] =>
      destruct ((scrapeProductReviews env u;; page_waitForTimeout 2000) w2)
        as [[[]|e] w3] eqn:E;
      apply (reviews_in_place u) in E
  end.
  - intros [= <- <-]. exists product. split; [|done].
    rewrite E by (by intros [=]%list_elem_of_singleton). exact Hd.
  - rewrite console_error_run. intros [= <- <-]. exists product.
    split; [|done].
    change (documents w3 COLLECTIONS.PRODUCTS =
            documents w COLLECTIONS.PRODUCTS ++ [product]).
    rewrite E by (by intros [=]%list_elem_of_singleton). exact Hd.
Qed.

Lemma for_entries_add_products (total index : nat) (items : list value)
    (w w' : World) (r : result ()) :
  reachable env (MONGO_URI env) = true →
  (∀ doc, rejects env COLLECTIONS.PRODUCTS doc = false) →
  (∀ p, p ∈ items → detail_served env p) →
  for_entries (scrapeEntry env total) index items w = (r, w') →
  ∃ added,
    documents w' COLLECTIONS.PRODUCTS =
      documents w COLLECTIONS.PRODUCTS ++ added ∧
    (λ product, get product "url") <$> added =
      (λ p, VStr (url_of p)) <$> items.
Proof.
  intros Hup Hok. revert index w.
  induction items as [|p items IH]; intros index w Hserved.
  - intros [= <- <-]. exists []. by rewrite app_nil_r.
  - cbn [for_entries]. rewrite run_bind.
    destruct (scrapeEntry env total index p w) as [[[]|e] w1] eqn:E.
    2: { destruct (scrapeEntry_run env total index p w) as (? & ? & ? & ? & _).
         congruence. }
    destruct (scrapeEntry_adds_product _ _ _ _ _ _ Hup Hok
                (Hserved p ltac:(left)) E) as (product & Hd & Hurl).
    intros Hrest.
    destruct (IH (S index) w1 (λ q Hq, Hserved q ltac:(by right)) Hrest)
      as (added & Hd' & Hurls).
    exists (product :: added). split.
    + by rewrite Hd', Hd, <- app_assoc.
    + cbn. by rewrite Hurl, Hurls.
Qed.

(** X17: the loop stores one detailed product per entry.  When the store is
    there, accepts products, and the pages of the first three entries are
    served, the loop appends to [products] exactly one document for each of
    them, in list order and carrying the entry's URL, whether or not the
    reviews of any of them could be scraped or stored. *)
Theorem loop_stores_each_product (w w' : World) (r : result ())
    (productList : value) (products : list value) :
  get productList "products" = VArr products →
  reachable env (MONGO_URI env) = true →
  (∀ doc, rejects env COLLECTIONS.PRODUCTS doc = false) →
  (∀ p, p ∈ take 3 products → detail_served env p) →
  scrapeFirstProducts env productList w = (r, w') →
  ∃ added,
    documents w' COLLECTIONS.PRODUCTS =
      documents w COLLECTIONS.PRODUCTS ++ added ∧
    (λ product, get product "url") <$> added =
      (λ p, VStr (url_of p)) <$> take 3 products ∧
    length added = 3 `min` length products.
Proof.
  intros Hp Hup Hok Hserved. unfold scrapeFirstProducts. rewrite Hp.
  cbn [slice_first]. intros Hrun.
  destruct (for_entries_add_products _ _ _ _ _ _ Hup Hok Hserved Hrun)
    as (added & Hd & Hurls).
  exists added. split; [exact Hd|]. split; [exact Hurls|].
  apply (f_equal length) in Hurls. rewrite !length_fmap in Hurls.
  by rewrite Hurls, length_take.
Qed.

Lemma body_caught (body : M unit) (msg : string) (w : World) :
  (try_catch body (λ error, console_error msg error) w).1 = Ok ().
Proof.
  unfold try_catch. by destruct (body w) as [[[]|e] w1].
Qed.

(** X18: [main] never raises and always lets go of the connection.
    Whatever the site, the store and the report do, [main] returns normally;
    from a consistent gateway, and with a report that keeps it consistent,
    it ends with neither a client nor a database held. *)
Theorem main_releases (report : M unit) (w : World) :
  linked w →
  preserves (keeps linked) report →
  ∃ w', main env report w = (Ok (), w') ∧ client w' = None ∧ db w' = None.
Proof.
  intros Hl Hreport.
  destruct (main env report w) as [r w'] eqn:E.
  assert (linked w') as [Hdb _].
  { refine (preserves_main env _ linked_trans linked_same (linked_connect env)
              report _ linked_close Hreport _ _ _ E Hl).
    intros. apply linked_insert. }
  unfold main, try_finally in E.
  match type of E with
  | context [try_catch ?body ?handler w] =>
      pose proof (body_caught body "❌ Error during scraping:" w) as Hr;
      destruct (try_catch body handler w) as [r1 w1]
  end.
  cbn in Hr. subst r1. rewrite closeMongo_run in E.
  assert (client w' = None) as Hc.
  { destruct (client w1) eqn:Ec; by injection E as <- <-. }
  exists w'. split; [by injection E as <- _|]. split; [exact Hc|].
  destruct (db w') as [d|] eqn:Ed; [|done].
  specialize (Hdb d eq_refl). congruence.
Qed.


(** X20: when the category page does not load, [main] stops after the
    attempt to open it.  It returns normally, has opened no other page,
    stored nothing and not run the report, and the navigation error is on
    the console as an error during scraping. *)
Theorem main_page_not_loading (report report' : M unit) (w : World) :
  available env w → loads env categoryUrl = false →
  main env report' w = main env report w ∧
  ∃ w', main env report w = (Ok (), w') ∧
        trace w' = trace w ++ [Goto categoryUrl] ∧
        unwritten w w' ∧
        LogError "❌ Error during scraping:" (NavigationError categoryUrl)
          ∈ console w'.
Proof.
  intros Hav Hl.
  destruct (connect_available env w Hav)
    as (d & w1 & Hc & _ & Hcoll & Hwr & _ & Htr & _).
  assert (∀ rep, main env rep w =
    closeMongo
      (with_console
         ((console w1 ++ [Log "📊 Starting to scrape product listing..."]) ++
          [LogError "❌ Error during scraping:" (NavigationError categoryUrl)])
         (with_trace (trace w1 ++ [Goto categoryUrl]) w1))) as Hrun.
  { intros rep. unfold main, try_finally. unfold try_catch.
    rewrite run_bind, Hc. cbv beta iota.
    rewrite run_bind, console_log_run. cbv beta iota.
    rewrite run_bind, (scrapeProductList_not_loading env) by done. cbv beta iota.
    rewrite console_error_run. cbv beta iota. rewrite !closeMongo_run.
    reflexivity. }
  split; [by rewrite !Hrun|].
  eexists. split; [rewrite Hrun; apply closeMongo_run|].
  destruct (client _) eqn:Ec; cbn; rewrite Htr, ?Hcoll, ?Hwr;
    (split; [done|]); (split; [by split|]); set_solver.
Qed.

End MainEdges.

Lemma loop_stores_each_product_witness :
  (λ product, get product "url") <$>
    documents (scrapeFirstProducts Sample.env Sample.listing Sample.blank).2
      COLLECTIONS.PRODUCTS =
  [ VStr "https://www.amazon.com/dp/B001";
    VStr "https://www.amazon.com/dp/B002";
    VStr "https://www.amazon.com/dp/B003" ].
Proof.
  destruct (loop_stores_each_product Sample.env Sample.blank _ _
              Sample.listing Sample.entries eq_refl eq_refl (λ _, eq_refl)
              (λ p _, conj eq_refl
                        (ex_intro _ Sample.detail (conj eq_refl eq_refl)))
              (surjective_pairing _))
    as (added & Hd & Hurls & _).
  rewrite Hd. exact Hurls.
Defined.

Lemma main_releases_witness :
  ∃ w', main Sample.env closeMongo Sample.blank = (Ok (), w') ∧
        client w' = None ∧ db w' = None.
Proof.
  apply (main_releases Sample.env closeMongo Sample.blank).
  - split; intros x Hx; discriminate Hx.
  - apply linked_close.
Defined.


Lemma main_page_not_loading_witness :
  ∃ w', main Faulty.unloadable (mret ()) Sample.blank = (Ok (), w') ∧
        trace w' = [Goto "https://www.amazon.com/s?k=laptops"] ∧
        collections w' = ∅.
Proof.
  destruct (main_page_not_loading Faulty.unloadable (mret ()) (mret ())
              Sample.blank (or_intror eq_refl) eq_refl)
    as (_ & w' & Hrun & Htr & [Hcoll _] & _).
  exists w'. split; [exact Hrun|]. split; [exact Htr | exact Hcoll].
Defined.

(** ** [schemas.ts]: what the detail scrape returns is a [Product] *)
Section Typed.

Variable env : Env.

Lemma page_extract_conforms (instruction : string) (shape : schema)
    (w w' : World) (answer : value) :
  page_extract env instruction shape w = (Ok answer, w') →
  conforms shape answer = true.
Proof.
  unfold page_extract. rewrite run_bind. cbn. rewrite run_bind. cbn.
  destruct (extraction env (location w) instruction) as [data|]; [|done].
  destruct (conforms shape data) eqn:Hc; [|done]. by intros [= <- _].
Qed.

Lemma omit_dateScraped :
  omit "dateScraped" ProductSchema =
  ZObject
    [ ("id", ZOptional ZString);
      ("name", ZString);
      ("price", ZString);
      ("currency", ZOptional ZString);
      ("description", ZOptional ZString);
      ("category", ZOptional ZString);
      ("imageUrl", ZOptional ZString);
      ("url", ZString);
      ("brand", ZOptional ZString);
      ("rating", ZOptional ZNumber);
      ("reviewCount", ZOptional ZNumber);
      ("inStock", ZOptional ZBoolean);
      ("specs", ZOptional (ZRecord ZString)) ].
Proof. reflexivity. Qed.

(** The object [{ ...product, url, dateScraped }] built from an answer of
    the shape [ProductSchema.omit({ dateScraped: true })]. *)
Lemma completeProduct_conforms (product : value) (productUrl : string) (t : N) :
  conforms (omit "dateScraped" ProductSchema) product = true →
  conforms ProductSchema
    (VObj (<["dateScraped" := VDate (DateAt t)]>
          (<["url" := VStr productUrl]> (fields product)))) = true.
Proof.
  rewrite omit_dateScraped. destruct product as [| | | | | | |o]; try done.
  unfold ProductSchema, ProductShape. cbn [conforms forallb fields get].
  rewrite lookup_insert_eq, (lookup_insert_ne _ "dateScraped" "url") by done.
  rewrite lookup_insert_eq.
  rewrite !(lookup_insert_ne _ "dateScraped"), !(lookup_insert_ne _ "url") by done.
  intros H. repeat (apply andb_prop in H as [? H]).
  repeat (apply andb_true_intro; split); done.
Qed.

(** X21: the document a detail scrape returns satisfies [ProductSchema].
    The answer was checked against the schema without [dateScraped]; the
    scrape sets [url] to a string and adds the timestamp, so every required
    field of a [Product] is there with its type. *)
Theorem scrapeProductDetails_typed (productUrl : string) (w w' : World)
    (product : value) :
  scrapeProductDetails env productUrl w = (Ok product, w') →
  conforms ProductSchema product = true.
Proof.
  unfold scrapeProductDetails. rewrite run_bind.
  destruct (loads env productUrl) eqn:Hl.
  2: { by rewrite page_goto_fails. }
  rewrite page_goto_ok by done. cbv beta iota.
  do 5 (rewrite run_bind;
        first [rewrite page_waitForTimeout_run | rewrite page_scrollTo_run];
        cbv beta iota).
  rewrite run_bind.
  match goal with
  | |- context [page_extract env ?i ?s ?w0] =>
      destruct (page_extract env i s w0) as [[answer|e] w1] eqn:Ex; [|done]
  end.
  apply page_extract_conforms in Ex.
  rewrite run_bind, new_Date_run. cbv beta iota zeta. rewrite run_bind.
  match goal with
  | |- context [storeData env ?c ?doc w1] =>
      destruct (storeData env c doc w1) as [[[]|e] w2]; [|done]
  end.
  intros [= <- _]. by apply completeProduct_conforms.
Qed.

End Typed.

Lemma scrapeProductDetails_typed_witness :
  conforms ProductSchema
    (VObj (<["dateScraped" := VDate (DateAt 4000)]>
          (<["url" := VStr "https://www.amazon.com/dp/B001"]>
             (fields Sample.detail)))) = true.
Proof.
  apply (scrapeProductDetails_typed Sample.env (Sample.productUrl "B001")
           Sample.blank
           (scrapeProductDetails Sample.env (Sample.productUrl "B001")
              Sample.blank).2).
  vm_compute. reflexivity.
Defined.


